(** * Five9 campaign manager (app2.py): command bridge, install job and
      response parsers

    A shallow embedding of the non-UI part of [app2.py]:
    - [ps_escape], the script text of [run_powershell_command];
    - [start_install_detached] and [get_install_status] over a file store;
    - [parse_json_output], [parse_campaigns_json], [parse_domain_lists_json]
      and [parse_action_results] over Python values.

    Conventions of the embedding.
    - A Python [str] is a [string]: the UTF-8 bytes of its text.  The JSON
      syntax, the apostrophe and the keys the program looks up are ASCII,
      so byte-wise processing agrees with Python's on code points; the
      typographic quotes of the shell are three bytes each.
    - A Python [int] is a [Z]; a Python [float] is carried as its [repr]
      text (float arithmetic is not part of the embedding).
    - A Python [dict] is an association list in insertion order.
    - A Python exception is a value of [exn]; a function that can raise
      returns a [result].  Of the interpreter's limits, the recursion
      depth left to the JSON scanner and the cap on the digits of an
      integer literal are parameters of the decoder; memory is not
      modelled. *)

From Stdlib Require Import ZArith Ascii String DecimalString Permutation Sorted.
From stdpp Require Import gmap strings list.

Local Open Scope Z_scope.
Local Open Scope nat_scope.

(** ** Characters and strings *)

Module PyStr.

Definition chr (n : nat) : ascii := ascii_of_nat n.
Definition ord (c : ascii) : nat := nat_of_ascii c.

Definition dquote : ascii := chr 34.
Definition squote : ascii := chr 39.
Definition backslash : ascii := chr 92.
Definition newline : ascii := chr 10.

Definition str1 (c : ascii) : string := String c EmptyString.
Definition nl : string := str1 newline.

Definition is_empty (s : string) : bool :=
  match s with EmptyString => true | _ => false end.

Fixpoint str_map (f : ascii -> ascii) (s : string) : string :=
  match s with
  | EmptyString => EmptyString
  | String c rest => String (f c) (str_map f rest)
  end.

Fixpoint str_rev_onto (acc s : string) : string :=
  match s with
  | EmptyString => acc
  | String c rest => str_rev_onto (String c acc) rest
  end.
Definition str_rev (s : string) : string := str_rev_onto EmptyString s.

Fixpoint str_mem (c : ascii) (s : string) : bool :=
  match s with
  | EmptyString => false
  | String d rest => Ascii.eqb c d || str_mem c rest
  end.

Fixpoint str_count (c : ascii) (s : string) : nat :=
  match s with
  | EmptyString => 0
  | String d rest => (if Ascii.eqb c d then 1 else 0) + str_count c rest
  end.

Fixpoint join (sep : string) (l : list string) : string :=
  match l with
  | [] => EmptyString
  | [x] => x
  | x :: rest => x +:+ sep +:+ join sep rest
  end.

(** Test text is written with ['] where the program text has a double
    quote. *)
Definition dq (s : string) : string :=
  str_map (fun c => if Ascii.eqb c squote then dquote else c) s.

(** [str.lower()], on the ASCII letters.  Outside ASCII only the Kelvin
    sign lowers to ASCII text, the letter k, so a key equals ["name"],
    ["state"] or ["type"] after this function exactly when it does after
    Python's. *)
Definition lower_char (c : ascii) : ascii :=
  let n := ord c in
  if (65 <=? n) && (n <=? 90) then chr (n + 32) else c.
Definition lower (s : string) : string := str_map lower_char s.

(** [s.replace(old, new)]: occurrences of [old] are replaced from left
    to right, without overlap; [skip] counts the characters of a
    replaced occurrence still to be dropped. *)
Fixpoint replace_go (old new : string) (skip : nat) (s : string) : string :=
  match s with
  | EmptyString => EmptyString
  | String c rest =>
      match skip with
      | S k => replace_go old new k rest
      | O =>
          if String.prefix old s
          then new +:+ replace_go old new (String.length old - 1) rest
          else String c (replace_go old new 0 rest)
      end
  end.

Fixpoint interleave (new s : string) : string :=
  match s with
  | EmptyString => new
  | String c rest => new +:+ String c (interleave new rest)
  end.

Definition replace (old new s : string) : string :=
  match old with
  | EmptyString => interleave new s
  | _ => replace_go old new 0 s
  end.

(** [str.strip()]: the white space of Python's [str.isspace], given as
    the UTF-8 sequences of its code points. *)
Definition whitespace : list (list nat) :=
  [ [9]; [10]; [11]; [12]; [13]; [28]; [29]; [30]; [31]; [32];
    [194; 133]; [194; 160]; [225; 154; 128];
    [226; 128; 128]; [226; 128; 129]; [226; 128; 130]; [226; 128; 131];
    [226; 128; 132]; [226; 128; 133]; [226; 128; 134]; [226; 128; 135];
    [226; 128; 136]; [226; 128; 137]; [226; 128; 138];
    [226; 128; 168]; [226; 128; 169]; [226; 128; 175];
    [226; 129; 159]; [227; 128; 128] ].

Fixpoint starts_with_codes (codes : list nat) (s : string) : bool :=
  match codes, s with
  | [], _ => true
  | n :: codes', String c rest => (n =? ord c) && starts_with_codes codes' rest
  | _ :: _, EmptyString => false
  end.

(** Length of the white-space character [s] starts with, if any. *)
Definition space_prefix (table : list (list nat)) (s : string) : option nat :=
  length <$> List.find (fun codes => starts_with_codes codes s) table.

Fixpoint strip_go (table : list (list nat)) (skip : nat) (s : string) : string :=
  match s with
  | EmptyString => EmptyString
  | String c rest =>
      match skip with
      | S k => strip_go table k rest
      | O =>
          match space_prefix table s with
          | Some n => strip_go table (n - 1) rest
          | None => s
          end
      end
  end.

Definition lstrip (s : string) : string := strip_go whitespace 0 s.
Definition rstrip (s : string) : string :=
  str_rev (strip_go (map (@rev nat) whitespace) 0 (str_rev s)).
Definition strip (s : string) : string := rstrip (lstrip s).

(** [str(n)] for an integer. *)
Definition of_Z (n : Z) : string := NilZero.string_of_int (Z.to_int n).

(** [repr(s)] for a string: the quote is ['] unless the text has a [']
    and no double quote; the quote and the backslash are escaped, control
    characters are written as escapes, other bytes are kept (as Python
    keeps the printable characters outside ASCII; the escapes it writes
    for the non-printable ones there are not modelled). *)
Definition hex_digit (n : nat) : ascii :=
  if n <? 10 then chr (48 + n) else chr (87 + n).

Definition repr_char (quote c : ascii) : string :=
  let n := ord c in
  if Ascii.eqb c quote || Ascii.eqb c backslash then String backslash (str1 c)
  else if n =? 9 then String backslash "t"
  else if n =? 10 then String backslash "n"
  else if n =? 13 then String backslash "r"
  else if (n <? 32) || (n =? 127)
       then String backslash (String "x" (String (hex_digit (n / 16)) (str1 (hex_digit (n mod 16)))))
  else str1 c.

Fixpoint repr_body (quote : ascii) (s : string) : string :=
  match s with
  | EmptyString => EmptyString
  | String c rest => repr_char quote c +:+ repr_body quote rest
  end.

Definition repr (s : string) : string :=
  let quote := if str_mem squote s && negb (str_mem dquote s) then dquote else squote in
  String quote (repr_body quote s) +:+ str1 quote.

End PyStr.

(** ** Python values, dictionaries and exceptions *)

#[warnings="-register-all"] Inductive value : Type :=
| VNone
| VBool (b : bool)
| VInt (n : Z)
| VFloat (repr : string)
| VStr (s : string)
| VList (items : list value)
| VDict (items : list (string * value)).

(** A [dict] with string keys, in insertion order. *)
Definition pydict (A : Type) : Type := list (string * A).
Definition record : Type := pydict value.

Module Dict.
Section Ops.
Context {A : Type}.

Fixpoint get (d : pydict A) (k : string) : option A :=
  match d with
  | [] => None
  | (k', v) :: rest => if String.eqb k' k then Some v else get rest k
  end.

(** [d[k] = v]: the value of an existing key is replaced where the key
    stands, a new key is added at the end. *)
Fixpoint set (d : pydict A) (k : string) (v : A) : pydict A :=
  match d with
  | [] => [(k, v)]
  | (k', v') :: rest =>
      if String.eqb k' k then (k', v) :: rest else (k', v') :: set rest k v
  end.

Definition keys (d : pydict A) : list string := map fst d.

(** [dict(pairs)] and the dict comprehension. *)
Definition of_pairs (pairs : list (string * A)) : pydict A :=
  fold_left (fun d kv => set d (fst kv) (snd kv)) pairs [].
End Ops.

(** [d.get(k)] and [d.get(k, default)]. *)
Definition get_or (d : record) (k : string) (default : value) : value :=
  match get d k with Some v => v | None => default end.
Definition get_none (d : record) (k : string) : value := get_or d k VNone.
End Dict.

Inductive exn : Type :=
| JSONDecodeError
| StopIteration
| RecursionError
| TypeError
| KeyError
| ValueError.

(** Outcome of a call: a value, an exception, or [Unmodelled] where the
    behaviour of a library at the input is outside the embedding. *)
Inductive result (A : Type) : Type :=
| Returns (a : A)
| Raises (e : exn)
| Unmodelled.
Arguments Returns {A} a.
Arguments Raises {A} e.
Arguments Unmodelled {A}.

Definition bind {A B : Type} (m : result A) (k : A -> result B) : result B :=
  match m with
  | Returns a => k a
  | Raises e => Raises e
  | Unmodelled => Unmodelled
  end.

Declare Scope py_scope.
Delimit Scope py_scope with py.
Notation "x <- m ;; k" := (bind m (fun x => k))
  (at level 100, m at next level, right associativity) : py_scope.

(** [try: body except E: handler], for one exception class. *)
Definition try_except {A : Type} (body : result A) (caught : exn -> bool)
    (handler : result A) : result A :=
  match body with
  | Returns a => Returns a
  | Raises e => if caught e then handler else Raises e
  | Unmodelled => Unmodelled
  end.

Module Py.
Import PyStr.

(** [repr(v)] and [str(v)]. *)
Fixpoint repr (v : value) : string :=
  match v with
  | VNone => "None"
  | VBool true => "True"
  | VBool false => "False"
  | VInt n => of_Z n
  | VFloat r => r
  | VStr s => PyStr.repr s
  | VList items => "[" +:+ join ", " (map repr items) +:+ "]"
  | VDict items =>
      "{" +:+ join ", " (map (fun kv => PyStr.repr (fst kv) +:+ ": " +:+ repr (snd kv)) items)
          +:+ "}"
  end.

Definition str (v : value) : string :=
  match v with
  | VStr s => s
  | _ => repr v
  end.

(** Truth value of an object. *)
Definition truthy (v : value) : bool :=
  match v with
  | VNone => false
  | VBool b => b
  | VInt n => negb (n =? 0)%Z
  | VFloat r => negb (String.eqb r "0.0" || String.eqb r "-0.0")
  | VStr s => negb (is_empty s)
  | VList items => match items with [] => false | _ => true end
  | VDict items => match items with [] => false | _ => true end
  end.

(** [a or b]. *)
Definition or (a b : value) : value := if truthy a then a else b.

(** [x in l] and [x not in l] for a list of strings. *)
Definition str_in (x : string) (l : list string) : bool :=
  existsb (String.eqb x) l.
End Py.

(** ** Batch action results *)

Definition action_name (rec : record) : string :=
  Py.str (Dict.get_or rec "Identifier" (VStr "(unknown)")).

Definition action_succeeded (rec : record) : bool :=
  Py.truthy (Dict.get_none rec "Success").

Definition action_error (rec : record) : string :=
  Py.str (Py.or (Dict.get_none rec "Error") (VStr "Unknown error")).

(** The body of the loop of [parse_action_results], on the pair
    [(successes, failures)]. *)
Definition action_step (st : list string * pydict string) (rec : record)
    : list string * pydict string :=
  let '(successes, failures) := st in
  let name := action_name rec in
  if action_succeeded rec then
    ((if negb (Py.str_in name successes) then successes ++ [name] else successes),
     failures)
  else
    (successes, Dict.set failures name (action_error rec)).

Definition parse_action_results (records : list record)
    : list string * pydict string :=
  fold_left action_step records ([], []).

(** ** The JSON decoder ([json.loads])

    The standard library's decoder, after [json/decoder.py] and
    [json/scanner.py].  [float_of] stands for [repr(float(text))] on the
    text of a JSON real number. *)

Module Json.
Import PyStr.
Local Open Scope py_scope.

Definition is_ws (c : ascii) : bool :=
  let n := ord c in (n =? 32) || (n =? 9) || (n =? 10) || (n =? 13).

(** [WHITESPACE.match(s, end).end()] *)
Fixpoint skip_ws (s : string) : string :=
  match s with
  | String c rest => if is_ws c then skip_ws rest else s
  | EmptyString => s
  end.

Definition is_digit (c : ascii) : bool :=
  let n := ord c in (48 <=? n) && (n <=? 57).

Fixpoint span_digits (s : string) : string * string :=
  match s with
  | String c rest =>
      if is_digit c
      then let '(ds, r) := span_digits rest in (String c ds, r)
      else (EmptyString, s)
  | EmptyString => (EmptyString, s)
  end.

(** [s[idx:idx + len(p)] == p], returning the text after [p]. *)
Fixpoint strip_prefix (p s : string) : option string :=
  match p, s with
  | EmptyString, _ => Some s
  | String a p', String b s' => if Ascii.eqb a b then strip_prefix p' s' else None
  | String _ _, EmptyString => None
  end.

(** [NUMBER_RE]: an optional minus sign and either 0 or a digit 1-9
    followed by digits; then an optional fraction, a dot and one or more
    digits; then an optional exponent, e or E, an optional sign and one
    or more digits.  The three groups and the text after the match. *)
Definition match_integer (s : string) : option (string * string) :=
  let '(sign, s1) :=
    match s with
    | String c rest => if Ascii.eqb c "-" then ("-", rest) else (EmptyString, s)
    | EmptyString => (EmptyString, s)
    end in
  match s1 with
  | String c rest =>
      if Ascii.eqb c "0" then Some (sign +:+ "0", rest)
      else if is_digit c
           then let '(ds, r) := span_digits rest in Some (sign +:+ String c ds, r)
           else None
  | EmptyString => None
  end.

Definition match_frac (s : string) : string * string :=
  match s with
  | String c rest =>
      if Ascii.eqb c "." then
        match span_digits rest with
        | (EmptyString, _) => (EmptyString, s)
        | (ds, r) => (String c ds, r)
        end
      else (EmptyString, s)
  | EmptyString => (EmptyString, s)
  end.

Definition match_exp (s : string) : string * string :=
  match s with
  | String c rest =>
      if Ascii.eqb c "e" || Ascii.eqb c "E" then
        let '(sign, rest1) :=
          match rest with
          | String d rest' =>
              if Ascii.eqb d "-" || Ascii.eqb d "+" then (str1 d, rest') else (EmptyString, rest)
          | EmptyString => (EmptyString, rest)
          end in
        match span_digits rest1 with
        | (EmptyString, _) => (EmptyString, s)
        | (ds, r) => (String c (sign +:+ ds), r)
        end
      else (EmptyString, s)
  | EmptyString => (EmptyString, s)
  end.

Definition match_number (s : string) : option (string * string * string * string) :=
  match match_integer s with
  | None => None
  | Some (integer, r1) =>
      let '(frac, r2) := match_frac r1 in
      let '(exp, r3) := match_exp r2 in
      Some (integer, frac, exp, r3)
  end.

(** [int(text)] on the text of a JSON integer. *)
Fixpoint digits_value (acc : Z) (s : string) : Z :=
  match s with
  | String c rest => digits_value (10 * acc + Z.of_nat (ord c - 48))%Z rest
  | EmptyString => acc
  end.

Definition int_value (text : string) : Z :=
  match text with
  | String c rest =>
      if Ascii.eqb c "-" then (- digits_value 0 rest)%Z else digits_value 0 text
  | EmptyString => 0%Z
  end.

(** The number of digits of the text of an integer. *)
Definition int_digits (text : string) : nat :=
  match text with
  | String c rest => if Ascii.eqb c "-" then String.length rest else String.length text
  | EmptyString => 0
  end.

(** The interpreter's limit on the text of an integer,
    [sys.get_int_max_str_digits()], 4300 unless set otherwise and 0 for
    no limit; texts of up to 640 digits are never refused. *)
Definition exceeds_max_str_digits (int_max_str_digits digits : nat) : bool :=
  (640 <? digits) && (0 <? int_max_str_digits) && (int_max_str_digits <? digits).

(** [int(text)]: [ValueError] on a text of more digits than the limit. *)
Definition parse_int (int_max_str_digits : nat) (text : string) : result Z :=
  if exceeds_max_str_digits int_max_str_digits (int_digits text)
  then Raises ValueError
  else Returns (int_value text).

Local Open Scope N_scope.

(** Hexadecimal digits of a [\uXXXX] escape. *)
Definition hex_value (c : ascii) : option N :=
  let n := N_of_ascii c in
  if (48 <=? n) && (n <=? 57) then Some (n - 48)
  else if (97 <=? n) && (n <=? 102) then Some (n - 87)
  else if (65 <=? n) && (n <=? 70) then Some (n - 55)
  else None.

Definition decode_uXXXX (h1 h2 h3 h4 : ascii) : result N :=
  match hex_value h1, hex_value h2, hex_value h3, hex_value h4 with
  | Some a, Some b, Some c, Some d => Returns (((a * 16 + b) * 16 + c) * 16 + d)
  | _, _, _, _ => Raises JSONDecodeError
  end.

(** [chr(uni)], as UTF-8 (a lone surrogate is written in three bytes). *)
Definition utf8 (uni : N) : string :=
  let byte (n : N) := str1 (ascii_of_N n) in
  if uni <? 128 then byte uni
  else if uni <? 2048 then
    byte (192 + uni / 64) +:+ byte (128 + uni mod 64)
  else if uni <? 65536 then
    byte (224 + uni / 4096) +:+ byte (128 + (uni / 64) mod 64)
      +:+ byte (128 + uni mod 64)
  else
    byte (240 + uni / 262144) +:+ byte (128 + (uni / 4096) mod 64)
      +:+ byte (128 + (uni / 64) mod 64) +:+ byte (128 + uni mod 64).

Definition is_high_surrogate (uni : N) : bool := (55296 <=? uni) && (uni <=? 56319).
Definition is_low_surrogate (uni : N) : bool := (56320 <=? uni) && (uni <=? 57343).

Local Close Scope N_scope.

(** The escapes of the [BACKSLASH] table. *)
Definition backslash_table (esc : ascii) : option ascii :=
  let n := ord esc in
  if Ascii.eqb esc dquote then Some dquote
  else if Ascii.eqb esc backslash then Some backslash
  else if Ascii.eqb esc "/" then Some "/"%char
  else if Ascii.eqb esc "b" then Some (chr 8)
  else if Ascii.eqb esc "f" then Some (chr 12)
  else if Ascii.eqb esc "n" then Some (chr 10)
  else if Ascii.eqb esc "r" then Some (chr 13)
  else if Ascii.eqb esc "t" then Some (chr 9)
  else None.

Definition prepend (chunk : string) (r : result (string * string))
    : result (string * string) :=
  p <- r ;; Returns (chunk +:+ fst p, snd p).

(** [scanstring(s, end, strict=True)]: [s] is the text after the opening
    quote; the result is the decoded string and the text after the
    closing quote. *)
Fixpoint scanstring (s : string) : result (string * string) :=
  match s with
  | EmptyString => Raises JSONDecodeError
  | String c rest =>
      if Ascii.eqb c dquote then Returns (EmptyString, rest)
      else if Ascii.eqb c backslash then
        match rest with
        | EmptyString => Raises JSONDecodeError
        | String esc rest1 =>
            if Ascii.eqb esc "u" then
              match rest1 with
              | String h1 (String h2 (String h3 (String h4 rest2))) =>
                  uni <- decode_uXXXX h1 h2 h3 h4 ;;
                  match rest2 with
                  | String b (String u rest3) =>
                      if is_high_surrogate uni && Ascii.eqb b backslash && Ascii.eqb u "u"
                      then
                        match rest3 with
                        | String g1 (String g2 (String g3 (String g4 rest4))) =>
                            uni2 <- decode_uXXXX g1 g2 g3 g4 ;;
                            if is_low_surrogate uni2
                            then prepend
                                   (utf8 (65536 + ((uni - 55296) * 1024 + (uni2 - 56320)))%N)
                                   (scanstring rest4)
                            else prepend (utf8 uni) (scanstring rest2)
                        | _ => Raises JSONDecodeError
                        end
                      else prepend (utf8 uni) (scanstring rest2)
                  | _ => prepend (utf8 uni) (scanstring rest2)
                  end
              | _ => Raises JSONDecodeError
              end
            else
              match backslash_table esc with
              | Some char => prepend (str1 char) (scanstring rest1)
              | None => Raises JSONDecodeError
              end
        end
      else if ord c <? 32 then Raises JSONDecodeError
      else prepend (str1 c) (scanstring rest)
  end.

(** A [StopIteration] of [scan_once] is reported as "Expecting value". *)
Definition expecting_value {A : Type} (r : result A) : result A :=
  try_except r (fun e => match e with StopIteration => true | _ => false end)
    (Raises JSONDecodeError).

Section Containers.
Variable scan_once : string -> result (value * string).

(** The [while True] loops of [JSONArray] and [JSONObject]; [fuel]
    bounds the number of iterations, and is never used up when it is more
    than the length of the text. *)
Fixpoint array_loop (fuel : nat) (s : string) (values : list value)
    : result (value * string) :=
  match fuel with
  | O => Unmodelled
  | S fuel' =>
      p <- expecting_value (scan_once s) ;;
      let values := values ++ [fst p] in
      match skip_ws (snd p) with
      | String c rest =>
          if Ascii.eqb c "]" then Returns (VList values, rest)
          else if Ascii.eqb c "," then array_loop fuel' (skip_ws rest) values
          else Raises JSONDecodeError
      | EmptyString => Raises JSONDecodeError
      end
  end.

Definition JSONArray (fuel : nat) (s : string) : result (value * string) :=
  match skip_ws s with
  | String c rest =>
      if Ascii.eqb c "]" then Returns (VList [], rest) else array_loop fuel (skip_ws s) []
  | EmptyString => array_loop fuel EmptyString []
  end.

(** [s] is the text after the quote that opens a key. *)
Fixpoint object_loop (fuel : nat) (s : string) (pairs : list (string * value))
    : result (value * string) :=
  match fuel with
  | O => Unmodelled
  | S fuel' =>
      k <- scanstring s ;;
      match skip_ws (snd k) with
      | String colon rest =>
          if Ascii.eqb colon ":" then
            p <- expecting_value (scan_once (skip_ws rest)) ;;
            let pairs := pairs ++ [(fst k, fst p)] in
            match skip_ws (snd p) with
            | String c rest1 =>
                if Ascii.eqb c "}" then Returns (VDict (Dict.of_pairs pairs), rest1)
                else if Ascii.eqb c "," then
                  match skip_ws rest1 with
                  | String q rest2 =>
                      if Ascii.eqb q dquote then object_loop fuel' rest2 pairs
                      else Raises JSONDecodeError
                  | EmptyString => Raises JSONDecodeError
                  end
                else Raises JSONDecodeError
            | EmptyString => Raises JSONDecodeError
            end
          else Raises JSONDecodeError
      | EmptyString => Raises JSONDecodeError
      end
  end.

Definition JSONObject (fuel : nat) (s : string) : result (value * string) :=
  match skip_ws s with
  | String c rest =>
      if Ascii.eqb c "}" then Returns (VDict [], rest)
      else if Ascii.eqb c dquote then object_loop fuel rest []
      else Raises JSONDecodeError
  | EmptyString => Raises JSONDecodeError
  end.
End Containers.

Section Decoder.
(** The interpreter: the number of objects and arrays that may be open at
    once before a further one raises [RecursionError] (what is left of the
    recursion limit where [json.loads] is called), the limit on the digits
    of an integer, and the conversion of the text of a float. *)
Variable recursion_limit : nat.
Variable int_max_str_digits : nat.
Variable float_of : string -> string.

Definition scan_constant (s : string) : result (value * string) :=
  match strip_prefix "NaN" s with
  | Some rest => Returns (VFloat "nan", rest)
  | None =>
      match strip_prefix "Infinity" s with
      | Some rest => Returns (VFloat "inf", rest)
      | None =>
          match strip_prefix "-Infinity" s with
          | Some rest => Returns (VFloat "-inf", rest)
          | None => Raises StopIteration
          end
      end
  end.

Definition scan_number (s : string) : result (value * string) :=
  match match_number s with
  | Some (integer, frac, exp, rest) =>
      if is_empty frac && is_empty exp
      then n <- parse_int int_max_str_digits integer ;; Returns (VInt n, rest)
      else Returns (VFloat (float_of (integer +:+ frac +:+ exp)), rest)
  | None => scan_constant s
  end.

Definition scan_literal (s : string) : result (value * string) :=
  match strip_prefix "null" s with
  | Some rest => Returns (VNone, rest)
  | None =>
      match strip_prefix "true" s with
      | Some rest => Returns (VBool true, rest)
      | None =>
          match strip_prefix "false" s with
          | Some rest => Returns (VBool false, rest)
          | None => scan_number s
          end
      end
  end.

(** [_scan_once(string, idx)]: the scanner enters a recursive call for
    every object and array it opens, and raises [RecursionError] when
    [depth], the number of calls left, is used up.  [fuel] bounds the
    recursion and the loops, and is never used up when it is more than the
    length of the text. *)
Fixpoint scan_once (fuel depth : nat) (s : string) : result (value * string) :=
  match fuel with
  | O => Unmodelled
  | S fuel' =>
      match s with
      | EmptyString => Raises StopIteration
      | String nextchar rest =>
          if Ascii.eqb nextchar dquote then
            p <- scanstring rest ;; Returns (VStr (fst p), snd p)
          else if Ascii.eqb nextchar "{" then
            match depth with
            | O => Raises RecursionError
            | S depth' => JSONObject (scan_once fuel' depth') fuel' rest
            end
          else if Ascii.eqb nextchar "[" then
            match depth with
            | O => Raises RecursionError
            | S depth' => JSONArray (scan_once fuel' depth') fuel' rest
            end
          else scan_literal s
      end
  end.

(** [JSONDecoder.decode]. *)
Definition decode (s : string) : result value :=
  p <- expecting_value (scan_once (S (String.length s)) recursion_limit (skip_ws s)) ;;
  match skip_ws (snd p) with
  | EmptyString => Returns (fst p)
  | String _ _ => Raises JSONDecodeError
  end.

(** [json.loads(s)] for a [str]. *)
Definition loads (s : string) : result value :=
  if starts_with_codes [239; 187; 191] s then Raises JSONDecodeError
  else decode s.
End Decoder.
End Json.

(** ** Generic decoding of the shell's output *)

Section ParseJson.
Variables recursion_limit int_max_str_digits : nat.
Variable float_of : string -> string.
Local Open Scope py_scope.

Definition parse_json_output (raw_json : string) : result (list value) :=
  if PyStr.is_empty raw_json then Returns []
  else
    try_except
      (parsed <- Json.loads recursion_limit int_max_str_digits float_of raw_json ;;
       Returns (match parsed with
                | VDict _ => [parsed]
                | VList items => items
                | _ => []
                end))
      (fun e => match e with JSONDecodeError => true | _ => false end)
      (Returns []).
End ParseJson.

(** ** Tables ([pandas.DataFrame])

    A frame is its column labels, its row labels and its rows, each row
    holding one cell per column.  Cells hold the Python values of the
    records; the conversion of whole columns to machine number types is
    not modelled. *)

Module Pandas.
Local Open Scope py_scope.

Record DataFrame : Type := {
  columns : list string;
  index : list nat;
  rows : list (list value)
}.

(** The missing-value marker. *)
Definition NaN : value := VFloat "nan".

Definition isna (v : value) : bool :=
  match v with
  | VNone => true
  | VFloat r => String.eqb r "nan"
  | _ => false
  end.

Definition add_label (labels : list string) (k : string) : list string :=
  if Py.str_in k labels then labels else labels ++ [k].

(** Column labels of a list of dicts: the keys in order of first
    appearance. *)
Definition union_keys (records : list record) : list string :=
  fold_left (fun labels rec => fold_left add_label (Dict.keys rec) labels) records [].

Definition row_of (labels : list string) (rec : record) : list value :=
  map (fun k => Dict.get_or rec k NaN) labels.

(** [pd.DataFrame(columns=labels)] *)
Definition of_columns (labels : list string) : DataFrame :=
  {| columns := labels; index := []; rows := [] |}.

(** [pd.DataFrame.from_records(records)] for a list of dicts: a column
    per key and a row per record; the row labels are taken from the
    columns, so records without any key give a frame without rows. *)
Definition from_records (records : list record) : DataFrame :=
  match union_keys records with
  | [] => of_columns []
  | labels =>
      {| columns := labels;
         index := seq 0 (length records);
         rows := map (row_of labels) records |}
  end.

(** [df.empty]: some axis has length 0. *)
Definition empty (df : DataFrame) : bool :=
  match columns df, index df with
  | [], _ | _, [] => true
  | _, _ => false
  end.

Fixpoint position (k : string) (labels : list string) : option nat :=
  match labels with
  | [] => None
  | k' :: rest => if String.eqb k' k then Some 0 else S <$> position k rest
  end.

(** The cell of a row in the column at position [i]. *)
Definition cell (i : nat) (row : list value) : value := nth i row NaN.

(** Sort key of a labelled row. *)
Inductive key : Type :=
| KStr (s : string)     (* a string *)
| KNa                   (* missing: [None] or NaN *)
| KOther.               (* any other value *)

Definition key_of (v : value) : key :=
  match v with
  | VStr s => KStr s
  | _ => if isna v then KNa else KOther
  end.

Section Sort.
Context {A : Type}.
Variable name_of : A -> string.

(** Insertion into a list sorted by name, before the entries that
    are not smaller. *)
Fixpoint insert_sorted (x : A) (l : list A) : list A :=
  match l with
  | [] => [x]
  | y :: rest =>
      if String.leb (name_of x) (name_of y) then x :: l
      else y :: insert_sorted x rest
  end.

Definition sort_by_name (l : list A) : list A :=
  fold_right insert_sorted [] l.
End Sort.

(** [df.sort_values(by=by, ascending=True)]: a missing label raises
    [KeyError]; rows with a missing key go last, in their order; the
    other rows are ordered by key.  The order of string keys is modelled
    (Python compares strings by code point, which is the order of their
    UTF-8 bytes); rows with equal keys keep their order here.  The order
    of other kinds of keys is not modelled. *)
Definition labelled (df : DataFrame) : list (nat * list value) :=
  combine (index df) (rows df).

Fixpoint string_keys (i : nat) (l : list (nat * list value))
    : option (list (string * (nat * list value))) :=
  match l with
  | [] => Some []
  | r :: rest =>
      match key_of (cell i (snd r)), string_keys i rest with
      | KStr s, Some l' => Some ((s, r) :: l')
      | _, _ => None
      end
  end.

Definition is_na_at (i : nat) (r : nat * list value) : bool :=
  match key_of (cell i (snd r)) with KNa => true | _ => false end.

Definition sort_values (df : DataFrame) (by_ : string) : result DataFrame :=
  match position by_ (columns df) with
  | None => Raises KeyError
  | Some i =>
      let present := List.filter (fun r => negb (is_na_at i r)) (labelled df) in
      let missing := List.filter (is_na_at i) (labelled df) in
      match string_keys i present with
      | None => Unmodelled
      | Some keyed =>
          let ordered := map snd (sort_by_name fst keyed) ++ missing in
          Returns {| columns := columns df;
                     index := map fst ordered;
                     rows := map snd ordered |}
      end
  end.

(** [df.reset_index(drop=True)] *)
Definition reset_index (df : DataFrame) : DataFrame :=
  {| columns := columns df;
     index := seq 0 (length (rows df));
     rows := rows df |}.
End Pandas.

(** ** Campaign and contact-list tables *)

Import Pandas.

Definition STATE_MAP : list (Z * string) :=
  [(0, "Not Running"); (1, "Starting"); (2, "Running"); (3, "Stopping")]%Z.

Definition TYPE_MAP : list (Z * string) :=
  [(0, "Inbound"); (1, "Outbound"); (2, "AutoDial")]%Z.

(** Lists and dicts are not hashable. *)
Definition hashable (v : value) : bool :=
  match v with
  | VList _ | VDict _ => false
  | _ => true
  end.

(** [n == v] for an integer key [n] of small magnitude: a boolean is the
    integer 0 or 1, a float equals [n] when its repr is that of [n]. *)
Definition int_key_eq (n : Z) (v : value) : bool :=
  match v with
  | VBool b => (n =? (if b then 1 else 0))%Z
  | VInt m => (n =? m)%Z
  | VFloat r =>
      String.eqb r (PyStr.of_Z n +:+ ".0") || ((n =? 0)%Z && String.eqb r "-0.0")
  | _ => false
  end.

(** [table.get(key, default)] on a dict with integer keys: the key is
    hashed, which raises [TypeError] on a list or a dict. *)
Definition int_map_get (table : list (Z * string)) (key : value) (default : string)
    : result string :=
  if hashable key then
    Returns (match List.find (fun entry => int_key_eq (fst entry) key) table with
             | Some entry => snd entry
             | None => default
             end)
  else Raises TypeError.

(** [{k.lower(): v for k, v in rec.items()}] *)
Definition lower_keys (rec : record) : record :=
  Dict.of_pairs (map (fun kv => (PyStr.lower (fst kv), snd kv)) rec).

Local Open Scope py_scope.

(** The dict appended to [normalized] for one record. *)
Definition normalize_campaign (rec : record) : result record :=
  let lower_rec := lower_keys rec in
  let name := Dict.get_or lower_rec "name" (VStr EmptyString) in
  state <- int_map_get STATE_MAP (Dict.get_none lower_rec "state")
             (Py.str (Dict.get_none lower_rec "state")) ;;
  type <- int_map_get TYPE_MAP (Dict.get_none lower_rec "type")
            (Py.str (Dict.get_none lower_rec "type")) ;;
  Returns [("Name", name); ("State", VStr state); ("Type", VStr type)].

Fixpoint for_each {A B : Type} (f : A -> result B) (l : list A) : result (list B) :=
  match l with
  | [] => Returns []
  | x :: rest => y <- f x ;; ys <- for_each f rest ;; Returns (y :: ys)
  end.

Definition parse_campaigns_json (records : list record) : result DataFrame :=
  normalized <- for_each normalize_campaign records ;;
  Returns (from_records normalized).

Definition parse_domain_lists_json (records : list record) : result DataFrame :=
  let df := from_records records in
  if empty df then Returns (of_columns ["name"; "size"])
  else
    sorted <- sort_values df "name" ;;
    Returns (reset_index sorted).

(** ** Command executor *)

Definition ps_base_args (command : string) : list string :=
  [ "powershell.exe"; "-NoLogo"; "-NoProfile"; "-NonInteractive";
    "-ExecutionPolicy"; "Bypass"; "-WindowStyle"; "Hidden"; "-Command"; command ].

(** [value or ""]: [None] stands for Python's [None]. *)
Definition or_empty (value : option string) : string :=
  match value with
  | Some s => s
  | None => EmptyString
  end.

Definition ps_escape (value : option string) : string :=
  PyStr.replace "'" "''" (or_empty value).

(** The text before, between and after the two credentials in
    [ps_script], and the script itself. *)
Definition preamble_head : string :=
  PyStr.nl +:+ "$ErrorActionPreference = 'Stop'" +:+ PyStr.nl
    +:+ "$secpasswd = ConvertTo-SecureString '".

Definition preamble_middle : string :=
  "' -AsPlainText -Force" +:+ PyStr.nl
    +:+ "$creds = New-Object System.Management.Automation.PSCredential ('".

Definition preamble_tail : string :=
  "', $secpasswd)" +:+ PyStr.nl
    +:+ "Connect-Five9AdminWebService -Credential $creds" +:+ PyStr.nl.

Definition ps_script (username password : option string) (command : string) : string :=
  let safe_user := ps_escape username in
  let safe_pwd := ps_escape password in
  preamble_head +:+ safe_pwd +:+ preamble_middle +:+ safe_user +:+ preamble_tail
    +:+ command +:+ PyStr.nl.

Section Executor.
(** [subprocess.run(args, capture_output=True, text=True)]: the captured
    standard output and standard error of the process. *)
Variable subprocess_run : list string -> string * string.

Definition run_powershell_command (username password : option string)
    (command : string) : string * string :=
  let completed := subprocess_run (ps_base_args (ps_script username password command)) in
  (PyStr.strip (fst completed), PyStr.strip (snd completed)).
End Executor.

(** The single-quote characters of the shell the script is handed to:
    the apostrophe U+0027 and the typographic quotes U+2018, U+2019,
    U+201A and U+201B, which are three bytes each in UTF-8; in the
    encoding of a Python string these bytes occur nowhere else.
    [quote_width s] is the number of bytes of the quote character the text
    starts with, or 0. *)
Definition typographic_quote (s : string) : bool :=
  match s with
  | String b1 (String b2 (String b3 _)) =>
      (PyStr.ord b1 =? 226) && (PyStr.ord b2 =? 128)
        && ((PyStr.ord b3 =? 152) || (PyStr.ord b3 =? 153)
            || (PyStr.ord b3 =? 154) || (PyStr.ord b3 =? 155))
  | _ => false
  end.

Definition quote_width (s : string) : nat :=
  match s with
  | String c _ =>
      if Ascii.eqb c PyStr.squote then 1 else if typographic_quote s then 3 else 0
  | EmptyString => 0
  end.

Fixpoint str_drop (n : nat) (s : string) : string :=
  match n, s with
  | S n', String _ rest => str_drop n' rest
  | _, _ => s
  end.

(** A single-quoted literal of the shell: the text after the opening
    quote is read up to the first quote character that is not followed by
    a quote character; of two quote characters in a row the second one is
    part of the value.  [drop] counts the bytes still to be dropped of the
    first of two quotes, [copy] the bytes of the second one still to be
    taken.  The result is the value of the literal and the text after its
    closing quote. *)
Fixpoint read_literal (drop copy : nat) (s : string) : option (string * string) :=
  match s with
  | EmptyString => None
  | String c rest =>
      match drop, copy with
      | S drop', _ => read_literal drop' copy rest
      | O, S copy' => p ← read_literal 0 copy' rest; Some (String c p.1, p.2)
      | O, O =>
          match quote_width s with
          | O => p ← read_literal 0 0 rest; Some (String c p.1, p.2)
          | S w =>
              match quote_width (str_drop (S w) s) with
              | O => Some (EmptyString, str_drop (S w) s)
              | S w' => read_literal w (S w') rest
              end
          end
      end
  end.

Definition read_single_quoted (s : string) : option (string * string) :=
  read_literal 0 0 s.

(** ** Background install job *)

(** What the program does to its environment, in order. *)
Inductive event : Type :=
| Wrote (path text : string)
| Ran (args : list string).

(** The files (path to text) and the log of effects. *)
Record world : Type := {
  files : gmap string string;
  log : list event
}.

Definition IO (A : Type) : Type := world -> A * world.

Definition ret {A : Type} (a : A) : IO A := fun w => (a, w).
Definition seq_io {A B : Type} (m : IO A) (k : A -> IO B) : IO B :=
  fun w => let '(a, w') := m w in k a w'.

Declare Scope io_scope.
Delimit Scope io_scope with io.
Notation "x <- m ;; k" := (seq_io m (fun x => k))
  (at level 100, m at next level, right associativity) : io_scope.
Notation "m ;; k" := (seq_io m (fun _ => k))
  (at level 100, right associativity) : io_scope.

(** [path.write_text(text)], [path.exists()], [path.read_text()] and
    [subprocess.run(args)] *)
Definition write_text (path text : string) : IO unit :=
  fun w => (tt, {| files := <[path := text]> (files w);
                   log := log w ++ [Wrote path text] |}).

Definition exists_ (path : string) : IO bool :=
  fun w => (bool_decide (is_Some (files w !! path)), w).

Definition read_text (path : string) : IO string :=
  fun w => (default EmptyString (files w !! path), w).

Definition run (args : list string) : IO unit :=
  fun w => (tt, {| files := files w; log := log w ++ [Ran args] |}).

Fixpoint for_io {A : Type} (l : list A) (body : A -> IO unit) : IO unit :=
  match l with
  | [] => ret tt
  | x :: rest => (body x ;; for_io rest body)%io
  end.

Record status : Type := {
  running : bool;
  stdout : string;
  stderr : string;
  done : bool
}.

Section InstallJob.
(** [str(_INSTALL_DIR)] and the separator of path components. *)
Variable _INSTALL_DIR : string.
Variable sep : string.

Definition in_install_dir (name : string) : string := _INSTALL_DIR +:+ sep +:+ name.

Definition _INSTALL_STDOUT : string := in_install_dir "stdout.txt".
Definition _INSTALL_STDERR : string := in_install_dir "stderr.txt".
Definition _INSTALL_LOCK : string := in_install_dir "running.lock".
Definition script_file : string := in_install_dir "install_script.ps1".

Definition wrapper_script (command : string) : string :=
  "try { " +:+ command +:+ " | Out-File -FilePath '" +:+ _INSTALL_STDOUT
    +:+ "' -Encoding utf8 } "
    +:+ "catch { $_.Exception.Message | Out-File -FilePath '" +:+ _INSTALL_STDERR
    +:+ "' -Encoding utf8 }" +:+ PyStr.nl
    +:+ "finally { Remove-Item -Path '" +:+ _INSTALL_LOCK
    +:+ "' -Force -ErrorAction SilentlyContinue }".

Definition launch_cmd : string :=
  "Start-Process powershell.exe -ArgumentList '-NoLogo','-NoProfile','-NonInteractive',"
    +:+ "'-ExecutionPolicy','Bypass','-File','" +:+ script_file
    +:+ "' -WindowStyle Hidden".

Local Open Scope io_scope.

Definition start_install_detached (command : string) : IO unit :=
  for_io [_INSTALL_STDOUT; _INSTALL_STDERR] (fun f => write_text f EmptyString) ;;
  write_text _INSTALL_LOCK "running" ;;
  write_text script_file (wrapper_script command) ;;
  run (ps_base_args launch_cmd).

Definition read_stripped (path : string) : IO string :=
  present <- exists_ path ;;
  if present : bool then text <- read_text path ;; ret (PyStr.strip text)
  else ret EmptyString.

Definition get_install_status : IO status :=
  running <- exists_ _INSTALL_LOCK ;;
  stdout <- read_stripped _INSTALL_STDOUT ;;
  stderr <- read_stripped _INSTALL_STDERR ;;
  out_exists <- exists_ _INSTALL_STDOUT ;;
  err_exists <- exists_ _INSTALL_STDERR ;;
  let done := negb running && (out_exists || err_exists) in
  ret {| running := running; stdout := stdout; stderr := stderr; done := done |}.

(** The detached job, as [wrapper_script] asks of it: the command's
    output goes to the stdout capture, or the message of a failure to
    the stderr capture; at the end the lock marker is removed. *)
Inductive job_step : world -> world -> Prop :=
| job_output (w : world) (text : string) :
    job_step w {| files := <[_INSTALL_STDOUT := text]> (files w); log := log w |}
| job_failure (w : world) (message : string) :
    job_step w {| files := <[_INSTALL_STDERR := message]> (files w); log := log w |}.

Definition job_finally (w : world) : world :=
  {| files := delete _INSTALL_LOCK (files w); log := log w |}.
End InstallJob.

(** ** Notions used in the statements *)

(** The first occurrences of the elements of a list, in order. *)
Fixpoint first_occurrences (l : list string) : list string :=
  match l with
  | [] => []
  | x :: rest => x :: List.filter (fun y => negb (String.eqb x y)) (first_occurrences rest)
  end.

(** The records of a batch that failed under the name [name], and the
    message of the last of them. *)
Definition failed_as (name : string) (rec : record) : bool :=
  negb (action_succeeded rec) && String.eqb (action_name rec) name.

Definition last_error (name : string) (records : list record) : option string :=
  last (map action_error (List.filter (failed_as name) records)).

(** The batch of section 8 of the specification. *)
Definition action_batch : list record :=
  [ [("Identifier", VStr "c1"); ("Success", VBool true)];
    [("Identifier", VStr "c1"); ("Success", VBool true)];
    [("Identifier", VStr "c2"); ("Success", VBool false); ("Error", VStr "timeout")];
    [("Identifier", VStr "c3"); ("Success", VBool false)] ].

(** The update of the success list by one succeeding record. *)
Definition add_name (successes : list string) (name : string) : list string :=
  if negb (Py.str_in name successes) then successes ++ [name] else successes.

(** Exceptions a scanner may raise. *)
Definition decode_error_only (e : exn) : bool :=
  match e with JSONDecodeError => true | _ => false end.

Definition decode_error_or_stop (e : exn) : bool :=
  match e with JSONDecodeError | StopIteration => true | _ => false end.

(** [t] is an end of [s]. *)
Definition suffix_of (t s : string) : Prop := exists a, s = a +:+ t.

(** The number of opening brackets and braces of a text, which bounds
    how deep its arrays and objects nest; and the length of its longest
    run of digits, which bounds the digits of its integers. *)
Fixpoint open_count (s : string) : nat :=
  match s with
  | EmptyString => 0
  | String c rest =>
      (if Ascii.eqb c "[" || Ascii.eqb c "{" then 1 else 0) + open_count rest
  end.

Fixpoint max_digit_run (s : string) : nat :=
  match s with
  | EmptyString => 0
  | String _ rest => Nat.max (String.length (Json.span_digits s).1) (max_digit_run rest)
  end.

(** A scan of [s] with [depth] calls left returned, leaving a shorter end
    of the text, or raised an allowed exception, or [RecursionError] on a
    text with more than [depth] opening brackets, or [ValueError] on a
    text with a run of digits over the limit. *)
Definition scan_ok {A : Type} (int_max_str_digits : nat) (allowed : exn -> bool)
    (depth : nat) (s : string) (r : result (A * string)) : Prop :=
  match r with
  | Returns p => String.length p.2 < String.length s /\ suffix_of p.2 s
  | Raises RecursionError => depth < open_count s
  | Raises ValueError =>
      Json.exceeds_max_str_digits int_max_str_digits (max_digit_run s) = true
  | Raises e => allowed e = true
  | Unmodelled => False
  end.




(** What [parse_json_output] makes of a decoded value. *)
Definition as_records (parsed : value) : list value :=
  match parsed with
  | VDict _ => [parsed]
  | VList items => items
  | _ => []
  end.

(** Case-insensitive lookup in a record as received: the value of the
    last key that is [field] once lowered. *)
Definition lookup_ci (rec : record) (field : string) : option value :=
  last (map snd (List.filter (fun kv => String.eqb (PyStr.lower kv.1) field) rec)).

Definition campaign_field (rec : record) (field : string) : value :=
  default VNone (lookup_ci rec field).

(** The label of a value under a table: the label of the key the value
    equals, or else the string form of the value. *)
Definition label_of (table : list (Z * string)) (v : value) : string :=
  match List.find (fun entry => int_key_eq entry.1 v) table with
  | Some entry => entry.2
  | None => Py.str v
  end.

(** The cells Name, State and Type of the row of a record. *)
Definition campaign_cells (rec : record) : list value :=
  [ default (VStr EmptyString) (lookup_ci rec "name");
    VStr (label_of STATE_MAP (campaign_field rec "state"));
    VStr (label_of TYPE_MAP (campaign_field rec "type")) ].

Definition campaign_row (rec : record) : record :=
  combine ["Name"; "State"; "Type"] (campaign_cells rec).

Definition campaign_frame (records : list record) : DataFrame :=
  {| columns := match records with [] => [] | _ => ["Name"; "State"; "Type"] end;
     index := seq 0 (length records);
     rows := map campaign_cells records |}.

(** The state and the type of a record can be hashed. *)
Definition campaign_hashable (rec : record) : Prop :=
  hashable (campaign_field rec "state") = true
  /\ hashable (campaign_field rec "type") = true.

(** No key of the record is [field] in any casing. *)
Definition lacks_ci (rec : record) (field : string) : Prop :=
  Forall (fun k => PyStr.lower k <> field) (Dict.keys rec).

(** The name of a contact-list record, and the order of records by name. *)
Definition record_name (rec : record) : string :=
  match Dict.get rec "name" with
  | Some (VStr s) => s
  | _ => EmptyString
  end.

Definition has_name (rec : record) : Prop :=
  exists s, Dict.get rec "name" = Some (VStr s).

Definition le_by {A : Type} (name_of : A -> string) (x y : A) : Prop :=
  String.leb (name_of x) (name_of y) = true.

Definition name_le : record -> record -> Prop := le_by record_name.

(** The table of [records] with its rows in the order [ordered]. *)
Definition lists_frame (records ordered : list record) : DataFrame :=
  match records with
  | [] => of_columns ["name"; "size"]
  | _ => {| columns := union_keys records;
            index := seq 0 (length records);
            rows := map (row_of (union_keys records)) ordered |}
  end.

(** The text with every single quote written twice. *)
Fixpoint double_quotes (s : string) : string :=
  match s with
  | EmptyString => EmptyString
  | String c rest =>
      if Ascii.eqb c PyStr.squote
      then String PyStr.squote (String PyStr.squote (double_quotes rest))
      else String c (double_quotes rest)
  end.

(** The text does not start with a quote character of the shell. *)
Definition no_quote_ahead (s : string) : Prop := quote_width s = 0.

(** The text has no typographic quote: its only quote characters are
    apostrophes. *)
Fixpoint apostrophes_only (s : string) : Prop :=
  match s with
  | EmptyString => True
  | String _ rest => typographic_quote s = false /\ apostrophes_only rest
  end.

(** The right single quotation mark U+2019, and a password that has
    it. *)
Definition rsquo : string :=
  String (PyStr.chr 226) (String (PyStr.chr 128) (String (PyStr.chr 153) EmptyString)).

Definition quoting_password : string :=
  "pw" +:+ rsquo +:+ " -AsPlainText -Force; Start-Process calc #".

(** The text of the script after the opening quote of the password
    literal, and after the opening quote of the user name literal. *)
Definition after_password_quote (username password : option string) (command : string)
    : string :=
  ps_escape password +:+ preamble_middle +:+ ps_escape username +:+ preamble_tail
    +:+ command +:+ PyStr.nl.

Definition after_username_quote (username : option string) (command : string) : string :=
  ps_escape username +:+ preamble_tail +:+ command +:+ PyStr.nl.

(** The text after the closing quote of each literal. *)
Definition password_literal_end : string :=
  " -AsPlainText -Force" +:+ PyStr.nl
    +:+ "$creds = New-Object System.Management.Automation.PSCredential ('".

Definition username_literal_end : string :=
  ", $secpasswd)" +:+ PyStr.nl
    +:+ "Connect-Five9AdminWebService -Credential $creds" +:+ PyStr.nl.

(** A directory for the job slot, and a slot where a finished job left
    one line of output. *)
Definition slot_dir : string := "/tmp/five9_installer".

Definition finished_slot : world :=
  {| files := {[ _INSTALL_STDOUT slot_dir "/" := "ok" +:+ PyStr.nl ]}; log := [] |}.

Definition empty_slot : world := {| files := ∅; log := [] |}.

(** ** Commands built by the pages *)

(** [', '.join([f"'{ps_escape(c)}'" for c in names])]: the items of a
    shell array of single-quoted literals. *)
Definition quoted_list (names : list string) : string :=
  PyStr.join ", " (map (fun c => "'" +:+ ps_escape (Some c) +:+ "'") names).

(** [action_cmd] and [action_label] of the state page: the comparison of
    the radio's choice with ["Running"]. *)
Definition action_cmd (status_choice : string) : string :=
  if String.eqb status_choice "Running"
  then "Stop-Five9Campaign -Force $true" else "Start-Five9Campaign".

Definition action_label (status_choice : string) : string :=
  if String.eqb status_choice "Running"
  then "Stop Selected Campaigns" else "Start Selected Campaigns".

(** The text of the start/stop script after the items of [$campaigns]. *)
Definition campaign_script_tail (cmd : string) : string :=
  ");" +:+ PyStr.nl
  +:+ "$results = @();" +:+ PyStr.nl
  +:+ "foreach ($c in $campaigns) {" +:+ PyStr.nl
  +:+ "    try { " +:+ PyStr.nl
  +:+ "        " +:+ cmd +:+ " -Name $c;" +:+ PyStr.nl
  +:+ "        $results += [pscustomobject]@{Identifier=$c; Success=$true}" +:+ PyStr.nl
  +:+ "    } catch {" +:+ PyStr.nl
  +:+ "        $results += [pscustomobject]@{Identifier=$c; Success=$false; Error=$_.Exception.Message}"
  +:+ PyStr.nl
  +:+ "    }" +:+ PyStr.nl
  +:+ "};" +:+ PyStr.nl
  +:+ "$results | ConvertTo-Json -Depth 3" +:+ PyStr.nl.

(** [ps_cmd] of the state page. *)
Definition campaign_script (status_choice : string) (selected_campaigns : list string)
    : string :=
  PyStr.nl +:+ "$campaigns = @(" +:+ quoted_list selected_campaigns
    +:+ campaign_script_tail (action_cmd status_choice).

(** The text of the add and remove scripts after the items of
    [$campaigns]; [cmdlet] is [Add-Five9CampaignList] or
    [Remove-Five9CampaignList]. *)
Definition list_script_tail (cmdlet : string) : string :=
  ");" +:+ PyStr.nl
  +:+ "$results = @();" +:+ PyStr.nl
  +:+ "foreach ($c in $campaigns) { foreach ($l in $lists) {" +:+ PyStr.nl
  +:+ "    try {" +:+ PyStr.nl
  +:+ "        " +:+ cmdlet +:+ " -CampaignName $c -ListName $l;" +:+ PyStr.nl
  +:+ "        $results += [pscustomobject]@{Identifier=" +:+ PyStr.dq "'$c -> $l'"
  +:+ "; Success=$true}" +:+ PyStr.nl
  +:+ "    } catch {" +:+ PyStr.nl
  +:+ "        $results += [pscustomobject]@{Identifier=" +:+ PyStr.dq "'$c -> $l'"
  +:+ "; Success=$false; Error=$_.Exception.Message}" +:+ PyStr.nl
  +:+ "    }" +:+ PyStr.nl
  +:+ "} };" +:+ PyStr.nl
  +:+ "$results | ConvertTo-Json -Depth 3" +:+ PyStr.nl.

(** [cmd] of the add and of the remove operation. *)
Definition list_script (cmdlet : string) (lists campaigns : list string) : string :=
  PyStr.nl +:+ "$lists = @(" +:+ quoted_list lists +:+ ");" +:+ PyStr.nl
    +:+ "$campaigns = @(" +:+ quoted_list campaigns +:+ list_script_tail cmdlet.

(** The items of a shell array of single-quoted literals, read back:
    literals, each opened by a quote character, separated by a comma and
    a space; the result is the values and the text after the last
    literal.  [fuel] bounds the number of items. *)
Fixpoint read_items (fuel : nat) (s : string) : option (list string * string) :=
  match fuel with
  | O => None
  | S fuel' =>
      match quote_width s with
      | O => Some ([], s)
      | S w =>
          match read_single_quoted (str_drop (S w) s) with
          | None => None
          | Some (item, rest) =>
              match Json.strip_prefix ", " rest with
              | Some next =>
                  match quote_width next with
                  | O => Some ([item], rest)
                  | S _ =>
                      match read_items fuel' next with
                      | Some (items, rest') => Some (item :: items, rest')
                      | None => None
                      end
                  end
              | None => Some ([item], rest)
              end
          end
      end
  end.

Definition read_quoted_list (s : string) : option (list string * string) :=
  read_items (S (String.length s)) s.

(** The text does not go on with a further item. *)
Definition no_item_ahead (s : string) : Prop :=
  no_quote_ahead s
  /\ match Json.strip_prefix ", " s with
     | Some rest => no_quote_ahead rest
     | None => True
     end.

(** ** The state page: campaigns offered for an action *)

(** [df[label]]: the cells of a column; a missing label raises
    [KeyError]. *)
Definition getitem (df : DataFrame) (label : string) : result (list value) :=
  match position label (columns df) with
  | Some i => Returns (map (cell i) (rows df))
  | None => Raises KeyError
  end.

(** One cell of [df["State"].str.lower() == "running"]: a cell that is
    not a string lowers to a missing value, and the comparison is false on
    it.  (No text outside ASCII lowers to ["running"], so the lowering of
    this file decides the comparison as Python's does.) *)
Definition is_running (state : value) : bool :=
  match state with
  | VStr s => String.eqb (PyStr.lower s) "running"
  | _ => false
  end.

Definition is_str (v : value) : bool :=
  match v with VStr _ => true | _ => false end.

(** The accessor [.str] is there for an empty column and for a column
    with a string in it; what it does on other columns is left out. *)
Definition running_mask (df : DataFrame) : result (list bool) :=
  (states <- getitem df "State" ;;
   match states with
   | [] => Returns []
   | _ => if existsb is_str states then Returns (map is_running states) else Unmodelled
   end)%py.

(** [df[mask]]: the rows, with their labels, where the mask holds. *)
Fixpoint keep {A : Type} (mask : list bool) (l : list A) : list A :=
  match mask, l with
  | b :: mask', x :: l' => if b then x :: keep mask' l' else keep mask' l'
  | _, _ => []
  end.

Definition boolean_filter (df : DataFrame) (mask : list bool) : DataFrame :=
  {| columns := columns df;
     index := keep mask (index df);
     rows := keep mask (rows df) |}.

(** [filtered_df] and the options of the multiselect,
    [filtered_df["Name"].tolist()]. *)
Definition filtered_df (df : DataFrame) (status_choice : string) : result DataFrame :=
  (mask <- running_mask df ;;
   Returns (boolean_filter df
              (if String.eqb status_choice "Running" then mask else map negb mask)))%py.

Definition campaign_options (df : DataFrame) (status_choice : string)
    : result (list value) :=
  (filtered <- filtered_df df status_choice ;; getitem filtered "Name")%py.

(** ** The list page: pagination *)

Definition page_size : Z := 10.

(** [int(np.ceil(n / page_size))]; the quotient is a float, exact for
    every table that fits in memory. *)
Definition total_pages (n : nat) : Z := ((Z.of_nat n + page_size - 1) / page_size)%Z.

(** A bound of a slice, for a sequence of length [len]: a negative bound
    counts from the end, and bounds are clipped to the sequence. *)
Definition slice_bound (len : nat) (i : Z) : nat :=
  if (i <? 0)%Z then Z.to_nat (Z.max 0 (Z.of_nat len + i))
  else Nat.min (Z.to_nat i) len.

(** [rows.iloc[start:stop]] *)
Definition iloc_slice {A : Type} (l : list A) (start stop : Z) : list A :=
  let a := slice_bound (length l) start in
  let b := slice_bound (length l) stop in
  firstn (b - a) (skipn a l).

(** The rows shown on a page. *)
Definition page_rows {A : Type} (l : list A) (page : Z) : list A :=
  iloc_slice l (page * page_size)%Z ((page + 1) * page_size)%Z.

(** The two buttons: a disabled button does nothing. *)
Inductive click : Type := Previous | Next.

Definition previous_disabled (page : Z) : bool := (page <=? 0)%Z.
Definition next_disabled (page total : Z) : bool := (page >=? total - 1)%Z.

Definition on_click (n : nat) (page : Z) (c : click) : Z :=
  match c with
  | Previous => if previous_disabled page then page else (page - 1)%Z
  | Next => if next_disabled page (total_pages n) then page else (page + 1)%Z
  end.

(** ** Credentials and session state *)

Definition nonempty (s : string) : bool := negb (PyStr.is_empty s).

(** [get_effective_credentials]; [cached_user] and [cached_pass] are the
    two strings of the session state. *)
Definition get_effective_credentials (cached_user cached_pass : string)
    (username password : string) (use_cached : bool) : string * string :=
  if nonempty username && nonempty password then (username, password)
  else if use_cached && nonempty cached_user && nonempty cached_pass
       then (cached_user, cached_pass)
  else (username, password).

(** The two steps of the sidebar on the cached pair: remember the typed
    pair, then clear on a click of the button, which is there only when a
    user is cached. *)
Definition sidebar_cache (cached : string * string) (username password : string)
    (remember clear_clicked : bool) : string * string :=
  let cached1 :=
    if remember && nonempty username && nonempty password
    then (username, password) else cached in
  if nonempty cached1.1 && clear_clicked then (EmptyString, EmptyString) else cached1.

(** Values of the session state. *)
Inductive session_value : Type :=
| SFrame (df : DataFrame)
| SInt (n : Z)
| SList (items : list value)
| SStr (s : string).

Definition get_default_state : pydict session_value :=
  [ ("campaigns_df", SFrame (of_columns ["Name"; "State"; "Type"]));
    ("domain_lists_df", SFrame (of_columns ["name"; "size"]));
    ("list_mgmt_page", SInt 0);
    ("campaigns_with_selected_lists", SList []);
    ("last_stdout", SStr EmptyString); ("last_stderr", SStr EmptyString);
    ("cached_user", SStr EmptyString); ("cached_pass", SStr EmptyString) ].

(** The loop over the defaults: a key is set only if it is not there. *)
Definition set_default (session_state : pydict session_value)
    (kv : string * session_value) : pydict session_value :=
  if negb (Py.str_in kv.1 (Dict.keys session_state))
  then Dict.set session_state kv.1 kv.2 else session_state.

Definition init_session_state (session_state : pydict session_value)
    : pydict session_value :=
  fold_left set_default get_default_state session_state.

(** ** The installer's status line *)

(** The status button is there when the job runs or is done. *)
Definition status_button_shown (s : status) : bool := running s || done s.

Definition installer_message (s : status) : string :=
  if running s then "Install running..."
  else if nonempty (stderr s) then "Install failed. Check Debug Console."
  else "Install complete.".

(** ASCII white space. *)
Definition ascii_space (c : ascii) : Prop :=
  In (PyStr.ord c) [9; 10; 11; 12; 13; 28; 29; 30; 31; 32].

Fixpoint all_chars (P : ascii -> Prop) (s : string) : Prop :=
  match s with
  | EmptyString => True
  | String c rest => P c /\ all_chars P rest
  end.

(** ** Notions used in the further statements *)

(** A record with its keys renamed by [f]. *)
Definition rename_keys (f : string -> string) (rec : record) : record :=
  map (fun kv => (f kv.1, kv.2)) rec.

(** The name cell of the row of a record, and whether its state cell reads
    as running. *)
Definition campaign_name (rec : record) : value :=
  default (VStr EmptyString) (lookup_ci rec "name").

Definition campaign_runs (rec : record) : bool :=
  is_running (VStr (label_of STATE_MAP (campaign_field rec "state"))).

(** The names of the campaigns fetched from [records] that the state page
    offers under a choice. *)
Definition offered (records : list record) (status_choice : string) : result (list value) :=
  (df <- parse_campaigns_json records ;; campaign_options df status_choice)%py.

(** A character that stands for itself in a JSON string: not the double
    quote, not the backslash, not a control character. *)
Definition plain_char (c : ascii) : Prop :=
  c <> PyStr.dquote /\ c <> PyStr.backslash /\ 32 <= PyStr.ord c.

(** The JSON text of a string of plain characters, and of an array of
    such strings. *)
Definition json_string (s : string) : string :=
  String PyStr.dquote (s +:+ PyStr.str1 PyStr.dquote).

Definition json_list (items : list string) : string :=
  String "[" (PyStr.join ", " (map json_string items) +:+ "]").

(** The numbers of records of a batch that succeeded and that failed. *)
Definition succeeded_count (records : list record) : nat :=
  length (List.filter action_succeeded records).

Definition failed_count (records : list record) : nat :=
  length (List.filter (fun rec => negb (action_succeeded rec)) records).

(** * Properties *)

(** ** Dictionaries *)

Section DictFacts.
Context {A : Type}.
Implicit Types (d : pydict A) (k : string) (v : A).

Lemma dict_get_set d k v k' :
  Dict.get (Dict.set d k v) k' = if String.eqb k k' then Some v else Dict.get d k'.
Proof.
  induction d as [|[k0 v0] d IH]; simpl.
  - reflexivity.
  - destruct (String.eqb_spec k0 k) as [->|Hne]; simpl.
    + destruct (String.eqb_spec k k'); reflexivity.
    + rewrite IH. destruct (String.eqb_spec k0 k') as [->|]; [|reflexivity].
      destruct (String.eqb_spec k k'); congruence.
Qed.

Lemma dict_get_None d k : Dict.get d k = None <-> k ∉ Dict.keys d.
Proof.
  induction d as [|[k0 v0] d IH]; simpl.
  - split; [intros _; apply not_elem_of_nil | reflexivity].
  - rewrite not_elem_of_cons. destruct (String.eqb_spec k0 k) as [->|Hne].
    + split; [discriminate | intros [? _]; congruence].
    + rewrite IH. split; [intros ?; split; congruence | intros [_ ?]; assumption].
Qed.

Lemma dict_keys_set d k v :
  Dict.keys (Dict.set d k v) = if Py.str_in k (Dict.keys d) then Dict.keys d else Dict.keys d ++ [k].
Proof.
  unfold Py.str_in, Dict.keys. induction d as [|[k0 v0] d IH]; simpl.
  - reflexivity.
  - rewrite (String.eqb_sym k k0). destruct (String.eqb_spec k0 k) as [->|Hne]; simpl.
    + reflexivity.
    + rewrite IH. destruct (existsb (String.eqb k) (map fst d)); reflexivity.
Qed.

Lemma str_in_spec (x : string) (l : list string) : Py.str_in x l = true <-> x ∈ l.
Proof.
  unfold Py.str_in. rewrite existsb_exists. split.
  - intros (y & Hy & Heq). apply String.eqb_eq in Heq. subst. now apply list_elem_of_In.
  - intros H. exists x. split; [now apply list_elem_of_In | apply String.eqb_refl].
Qed.

Lemma dict_keys_set_NoDup d k v : NoDup (Dict.keys d) -> NoDup (Dict.keys (Dict.set d k v)).
Proof.
  intros Hd. rewrite dict_keys_set. destruct (Py.str_in k (Dict.keys d)) eqn:E; [assumption|].
  apply NoDup_app. split; [assumption|]. split.
  - intros x Hx Hk. apply list_elem_of_singleton in Hk. subst.
    apply str_in_spec in Hx. congruence.
  - apply NoDup_singleton.
Qed.
End DictFacts.

(** ** Batch action results *)

Section ActionResults.
Implicit Types (records : list record) (rec : record) (name : string).

Lemma filter_twice {A : Type} (f g : A -> bool) (l : list A) :
  List.filter f (List.filter g l) = List.filter (fun x => g x && f x) l.
Proof.
  induction l as [|x l IH]; simpl; [reflexivity|].
  destruct (g x); simpl; [destruct (f x)|]; now rewrite IH.
Qed.

Lemma filter_same {A : Type} (f g : A -> bool) (l : list A) :
  (forall x, f x = g x) -> List.filter f l = List.filter g l.
Proof. intros H. induction l as [|x l IH]; simpl; [reflexivity|]. now rewrite H, IH. Qed.

Lemma filter_all {A : Type} (l : list A) : List.filter (fun _ => true) l = l.
Proof. induction l as [|x l IH]; simpl; [reflexivity|]. now rewrite IH. Qed.

(** The success side of the loop only sees the names of the succeeding
    records. *)
Lemma successes_fold records successes failures :
  (fold_left action_step records (successes, failures)).1
  = fold_left add_name (map action_name (List.filter action_succeeded records)) successes.
Proof.
  revert successes failures. induction records as [|rec records IH]; intros; simpl.
  - reflexivity.
  - destruct (action_succeeded rec); simpl; apply IH.
Qed.

Lemma str_in_app x (l1 l2 : list string) :
  Py.str_in x (l1 ++ l2) = Py.str_in x l1 || Py.str_in x l2.
Proof. unfold Py.str_in. apply existsb_app. Qed.

Lemma add_name_fold (names successes : list string) :
  fold_left add_name names successes
  = successes ++ List.filter (fun x => negb (Py.str_in x successes)) (first_occurrences names).
Proof.
  revert successes. induction names as [|x names IH]; intros; simpl.
  - now rewrite app_nil_r.
  - rewrite IH. unfold add_name. destruct (Py.str_in x successes) eqn:Hx; simpl.
    + f_equal. rewrite filter_twice. apply filter_same. intros y.
      destruct (String.eqb_spec x y) as [->|]; simpl; [now rewrite Hx | reflexivity].
    + rewrite <- app_assoc. simpl. do 2 f_equal. rewrite filter_twice.
      apply filter_same. intros y. rewrite str_in_app. unfold Py.str_in at 2. simpl.
      rewrite (String.eqb_sym y x). destruct (String.eqb x y), (Py.str_in y successes); reflexivity.
Qed.

Lemma elem_of_filter_bool {A : Type} (f : A -> bool) (l : list A) (x : A) :
  x ∈ List.filter f l <-> x ∈ l /\ f x = true.
Proof. rewrite !list_elem_of_In. apply filter_In. Qed.

Lemma first_occurrences_elem (l : list string) x : x ∈ first_occurrences l <-> x ∈ l.
Proof.
  induction l as [|y l IH]; simpl; [reflexivity|].
  rewrite !elem_of_cons, elem_of_filter_bool, IH.
  destruct (String.eqb_spec y x) as [->|Hne]; simpl; [tauto|].
  split; [tauto|]. intros [->|?]; [congruence | tauto].
Qed.

Lemma NoDup_filter_bool {A : Type} (f : A -> bool) (l : list A) :
  NoDup l -> NoDup (List.filter f l).
Proof.
  induction 1 as [|x l Hx Hl IH]; simpl; [constructor|].
  destruct (f x); [|assumption].
  constructor; [|assumption]. rewrite elem_of_filter_bool. tauto.
Qed.

Lemma first_occurrences_NoDup (l : list string) : NoDup (first_occurrences l).
Proof.
  induction l as [|y l IH]; simpl; constructor.
  - rewrite elem_of_filter_bool. rewrite String.eqb_refl. intros [_ ?]. discriminate.
  - now apply NoDup_filter_bool.
Qed.

(** The failure side: the message kept for a name is that of the last
    record failing under it. *)
Lemma failures_fold records successes failures name :
  Dict.get (fold_left action_step records (successes, failures)).2 name
  = match last_error name records with
    | Some message => Some message
    | None => Dict.get failures name
    end.
Proof.
  unfold last_error. revert successes failures.
  induction records as [|rec records IH]; intros; simpl; [reflexivity|].
  unfold failed_as at 1.
  destruct (action_succeeded rec) eqn:Hs; simpl.
  - apply IH.
  - rewrite IH, dict_get_set.
    destruct (String.eqb (action_name rec) name); simpl; [|reflexivity].
    rewrite last_cons.
    now destruct (last (map action_error (List.filter (failed_as name) records))).
Qed.

Lemma failures_keys_NoDup records successes failures :
  NoDup (Dict.keys failures) ->
  NoDup (Dict.keys (fold_left action_step records (successes, failures)).2).
Proof.
  revert successes failures. induction records as [|rec records IH]; intros S F HF; simpl.
  - assumption.
  - destruct (action_succeeded rec); apply IH; [assumption|].
    now apply dict_keys_set_NoDup.
Qed.

(** C1.  [parse_action_results] partitions a batch: the success list is
    the names of the records with a truthy ["Success"], each once, in the
    order of their first occurrence; the failure map gives, for each name,
    the message of the last record that failed under it, where the message
    of a record is its ["Error"], or ["Unknown error"] when that is absent
    or falsy.  The batch of the specification yields [["c1"]] and
    [{"c2": "timeout", "c3": "Unknown error"}]. *)
Theorem parse_action_results_partition :
  (forall records,
     let successes := (parse_action_results records).1 in
     let failures := (parse_action_results records).2 in
     successes = first_occurrences (map action_name (List.filter action_succeeded records))
     /\ NoDup successes
     /\ (forall name, name ∈ successes <->
           exists rec, rec ∈ records /\ action_succeeded rec = true /\ action_name rec = name)
     /\ (forall name, Dict.get failures name = last_error name records)
     /\ NoDup (Dict.keys failures))
  /\ (forall rec,
        action_error rec
        = if Py.truthy (Dict.get_none rec "Error")
          then Py.str (Dict.get_none rec "Error") else "Unknown error")
  /\ parse_action_results action_batch
     = (["c1"], [("c2", "timeout"); ("c3", "Unknown error")]).
Proof.
  split; [|split].
  - intros records successes failures.
    assert (Hs : successes
                 = first_occurrences (map action_name (List.filter action_succeeded records))).
    { unfold successes, parse_action_results.
      rewrite successes_fold, add_name_fold. simpl. apply filter_all. }
    split; [exact Hs|]. split; [rewrite Hs; apply first_occurrences_NoDup|].
    split; [|split].
    + intros name. rewrite Hs, first_occurrences_elem, list_elem_of_fmap. split.
      * intros (rec & -> & Hrec). apply elem_of_filter_bool in Hrec. exists rec. tauto.
      * intros (rec & Hrec & Hok & <-). exists rec. split; [reflexivity|].
        apply elem_of_filter_bool. tauto.
    + intros name. unfold failures, parse_action_results. rewrite failures_fold.
      simpl. now destruct (last_error name records).
    + unfold failures, parse_action_results. apply failures_keys_NoDup. constructor.
  - intros rec. unfold action_error, Py.or.
    now destruct (Py.truthy (Dict.get_none rec "Error")).
  - reflexivity.
Qed.

Lemma get_or_absent rec (k : string) (default : value) :
  k ∉ Dict.keys rec -> Dict.get_or rec k default = default.
Proof. intros H. apply dict_get_None in H. unfold Dict.get_or. now rewrite H. Qed.

(** C10.  The keys ["Identifier"], ["Success"] and ["Error"] are read as
    written: a record without the key ["Identifier"] goes under the name
    ["(unknown)"], and a record with none of the three keys, whatever the
    casing of the keys it has, is a failure under ["(unknown)"] with the
    message ["Unknown error"]. *)
Theorem parse_action_results_case_sensitive rec :
  "Identifier" ∉ Dict.keys rec ->
  action_name rec = "(unknown)"
  /\ ("Success" ∉ Dict.keys rec -> "Error" ∉ Dict.keys rec ->
      action_succeeded rec = false
      /\ action_error rec = "Unknown error"
      /\ (forall successes failures,
            action_step (successes, failures) rec
            = (successes, Dict.set failures "(unknown)" "Unknown error"))
      /\ parse_action_results [rec] = ([], [("(unknown)", "Unknown error")])).
Proof.
  intros Hid.
  assert (Hname : action_name rec = "(unknown)").
  { unfold action_name. now rewrite get_or_absent. }
  split; [exact Hname|]. intros Hs He.
  assert (Hfail : action_succeeded rec = false).
  { unfold action_succeeded, Dict.get_none. now rewrite get_or_absent. }
  assert (Herr : action_error rec = "Unknown error").
  { unfold action_error, Dict.get_none. now rewrite get_or_absent. }
  assert (Hstep : forall successes failures,
             action_step (successes, failures) rec
             = (successes, Dict.set failures "(unknown)" "Unknown error")).
  { intros. unfold action_step. now rewrite Hfail, Hname, Herr. }
  repeat split; try assumption.
  unfold parse_action_results. cbn [fold_left]. now rewrite Hstep.
Qed.

(** The record [{"identifier": "c1", "success": true}]. *)
Lemma parse_action_results_case_sensitive_witness :
  parse_action_results [[("identifier", VStr "c1"); ("success", VBool true)]]
  = ([], [("(unknown)", "Unknown error")]).
Proof.
  refine (proj2 (proj2 (proj2 (proj2
    (parse_action_results_case_sensitive
       [("identifier", VStr "c1"); ("success", VBool true)] _) _ _)))).
  all: intros H; apply list_elem_of_In in H; simpl in H;
    repeat (destruct H as [H|H]; [discriminate H|]); exact H.
Defined.

End ActionResults.

(** ** The JSON decoder raises nothing but [JSONDecodeError] *)

Section JsonFacts.
Import Json.
Variables recursion_limit int_max_str_digits : nat.
Variable float_of : string -> string.

Local Abbreviation ok := (@scan_ok _ int_max_str_digits).

Lemma length_app (s1 s2 : string) :
  String.length (s1 +:+ s2) = String.length s1 + String.length s2.
Proof. induction s1 as [|c s1 IH]; simpl; [reflexivity|]. now rewrite IH. Qed.

(** *** Ends of a text *)

Lemma suffix_of_refl (s : string) : suffix_of s s.
Proof. now exists EmptyString. Qed.

Lemma suffix_of_cons (c : ascii) (t s : string) : suffix_of t s -> suffix_of t (String c s).
Proof. intros [a ->]. now exists (String c a). Qed.

Lemma suffix_of_trans (t s u : string) : suffix_of t s -> suffix_of s u -> suffix_of t u.
Proof.
  intros [a ->] [b ->]. exists (b +:+ a).
  induction b as [|c b IH]; [reflexivity|].
  change (String c (b +:+ a +:+ t) = String c ((b +:+ a) +:+ t)). now rewrite IH.
Qed.

Lemma suffix_of_length (t s : string) : suffix_of t s -> String.length t <= String.length s.
Proof. intros [a ->]. rewrite length_app. lia. Qed.

Lemma open_count_suffix (t s : string) : suffix_of t s -> open_count t <= open_count s.
Proof.
  intros [a ->]. induction a as [|c a IH]; [reflexivity|]. simpl. lia.
Qed.

Lemma max_digit_run_suffix (t s : string) :
  suffix_of t s -> max_digit_run t <= max_digit_run s.
Proof.
  intros [a ->]. induction a as [|c a IH]; [reflexivity|].
  change (String c a +:+ t) with (String c (a +:+ t)). cbn [max_digit_run]. lia.
Qed.

Lemma digit_run_le (s : string) : String.length (span_digits s).1 <= max_digit_run s.
Proof. destruct s as [|c s]; [reflexivity|]. cbn [max_digit_run]. lia. Qed.

Lemma exceeds_mono (n m : nat) :
  n <= m -> exceeds_max_str_digits int_max_str_digits n = true ->
  exceeds_max_str_digits int_max_str_digits m = true.
Proof.
  unfold exceeds_max_str_digits. rewrite !andb_true_iff, !Nat.ltb_lt. lia.
Qed.

Ltac solve_suffix :=
  solve [repeat first [apply suffix_of_refl | apply suffix_of_cons]].

(** *** The invariant of the scanners *)

Lemma scan_ok_weaken {A : Type} allowed (depth : nat) (s s' : string)
    (r : result (A * string)) :
  suffix_of s s' -> ok allowed depth s r -> ok allowed depth s' r.
Proof.
  intros Hs. pose proof (suffix_of_length _ _ Hs). pose proof (open_count_suffix _ _ Hs).
  pose proof (max_digit_run_suffix _ _ Hs).
  destruct r as [p|[]|]; simpl; auto.
  - intros [Hl Hp]. split; [lia | eapply suffix_of_trans; eassumption].
  - lia.
  - now apply exceeds_mono.
Qed.

Lemma scan_ok_allow {A : Type} (depth : nat) (s : string) (r : result (A * string)) :
  ok decode_error_only depth s r -> ok decode_error_or_stop depth s r.
Proof. destruct r as [p|[]|]; simpl; auto. Qed.

Lemma scan_ok_open {A : Type} allowed (c : ascii) (depth : nat) (s : string)
    (r : result (A * string)) :
  Ascii.eqb c "[" || Ascii.eqb c "{" = true ->
  ok allowed depth s r -> ok allowed (S depth) (String c s) r.
Proof.
  intros Hc. pose proof (max_digit_run_suffix s (String c s) ltac:(solve_suffix)).
  destruct r as [p|[]|]; simpl; auto.
  - intros [Hl Hp]. split; [lia | now apply suffix_of_cons].
  - rewrite Hc. lia.
  - now apply exceeds_mono.
Qed.

Lemma skip_ws_length (s : string) : String.length (skip_ws s) <= String.length s.
Proof. induction s as [|c s IH]; simpl; [lia|]. destruct (is_ws c); simpl; lia. Qed.

Lemma skip_ws_suffix (s : string) : suffix_of (skip_ws s) s.
Proof.
  induction s as [|c s IH]; [apply suffix_of_refl|]. cbn [skip_ws].
  destruct (is_ws c); [now apply suffix_of_cons | apply suffix_of_refl].
Qed.

Lemma strip_prefix_app (p s rest : string) : strip_prefix p s = Some rest -> s = p +:+ rest.
Proof.
  revert s. induction p as [|a p IH]; intros [|b s]; simpl; try discriminate.
  - now intros [= <-].
  - now intros [= <-].
  - destruct (Ascii.eqb_spec a b) as [->|]; [|discriminate]. intros H.
    now rewrite (IH _ H).
Qed.

Lemma strip_prefix_ok {A : Type} allowed (depth : nat) (c : ascii) (p s rest : string)
    (v : A) :
  strip_prefix (String c p) s = Some rest -> ok allowed depth s (Returns (v, rest)).
Proof.
  intros H. apply strip_prefix_app in H. subst s. simpl. split.
  - rewrite length_app. lia.
  - now exists (String c p).
Qed.

Lemma span_digits_app (s : string) : s = (span_digits s).1 +:+ (span_digits s).2.
Proof.
  induction s as [|c s IH]; [reflexivity|]. cbn [span_digits].
  destruct (is_digit c); [|reflexivity].
  destruct (span_digits s) as [ds r]. cbn [fst snd] in *.
  change (String c s = String c (ds +:+ r)). now rewrite <- IH.
Qed.

Lemma span_digits_suffix (s : string) : suffix_of (span_digits s).2 s.
Proof. exists (span_digits s).1. apply span_digits_app. Qed.

(** The integer at the head of a text: what is left is a shorter end of
    the text, and its digits are a run of digits of the text. *)
Lemma match_digits_spec (s integer rest : string) :
  match s with
  | String c s' =>
      if Ascii.eqb c "0" then Some (String c EmptyString, s')
      else if is_digit c
           then let '(ds, r) := span_digits s' in Some (String c ds, r)
           else None
  | EmptyString => None
  end = Some (integer, rest) ->
  s = integer +:+ rest /\ integer <> EmptyString
  /\ String.length integer <= max_digit_run s.
Proof.
  destruct s as [|c s']; [discriminate|].
  pose proof (digit_run_le (String c s')) as Hrun. cbn [span_digits] in Hrun.
  destruct (Ascii.eqb_spec c "0") as [->|_].
  - intros [= <- <-]. split; [reflexivity|]. split; [discriminate|].
    change (is_digit "0") with true in Hrun. cbn iota in Hrun.
    destruct (span_digits s'). simpl in *. lia.
  - destruct (is_digit c); [|discriminate].
    pose proof (span_digits_app s') as Happ. destruct (span_digits s') as [ds r].
    intros [= <- <-]. simpl in *.
    split; [change (String c s' = String c (ds +:+ r)); now rewrite <- Happ|].
    split; [discriminate|]. lia.
Qed.

Lemma match_integer_spec (s integer rest : string) :
  match_integer s = Some (integer, rest) ->
  suffix_of rest s /\ String.length rest < String.length s
  /\ int_digits integer <= max_digit_run s.
Proof.
  unfold match_integer. destruct s as [|c s]; [discriminate|].
  destruct (Ascii.eqb_spec c "-") as [->|Hc].
  - intros H.
    assert (exists digits, integer = String "-" digits
              /\ match s with
                 | String c s' =>
                     if Ascii.eqb c "0" then Some (String c EmptyString, s')
                     else if is_digit c
                          then let '(ds, r) := span_digits s' in Some (String c ds, r)
                          else None
                 | EmptyString => None
                 end = Some (digits, rest)) as (digits & -> & Hd).
    { destruct s as [|d s']; [discriminate|].
      destruct (Ascii.eqb_spec d "0") as [->|_].
      - injection H as <- <-. exists "0". split; reflexivity.
      - destruct (is_digit d); [|discriminate]. destruct (span_digits s') as [ds r].
        injection H as <- <-. exists (String d ds). split; reflexivity. }
    apply match_digits_spec in Hd as (Hs & Hne & Hrun). split; [|split].
    + exists (String "-" digits). now rewrite Hs at 1.
    + cbn [String.length]. rewrite Hs at 1. rewrite length_app.
      destruct digits; [contradiction | simpl; lia].
    + cbn [int_digits]. change (Ascii.eqb "-" "-") with true. cbn iota.
      cbn [max_digit_run]. lia.
  - intros H.
    assert (Hd : match String c s with
                 | String c s' =>
                     if Ascii.eqb c "0" then Some (String c EmptyString, s')
                     else if is_digit c
                          then let '(ds, r) := span_digits s' in Some (String c ds, r)
                          else None
                 | EmptyString => None
                 end = Some (integer, rest)).
    { destruct (Ascii.eqb_spec c "0") as [->|_]; [exact H|].
      destruct (is_digit c); [|discriminate]. destruct (span_digits s). exact H. }
    assert (Hi : int_digits integer = String.length integer).
    { clear H. revert Hd. cbv beta iota. destruct (Ascii.eqb c "0") eqn:E0.
      { apply Ascii.eqb_eq in E0. subst c. now intros [= <- _]. }
      destruct (is_digit c); [|intros Hd; discriminate Hd].
      destruct (span_digits s) as [ds r].
      intros [= <- _]. cbn [int_digits].
      destruct (Ascii.eqb_spec c "-"); [contradiction | reflexivity]. }
    apply match_digits_spec in Hd as (Hs & Hne & Hrun). split; [|split].
    + exists integer. exact Hs.
    + rewrite Hs, length_app. destruct integer; [contradiction | simpl; lia].
    + lia.
Qed.

Lemma match_frac_suffix (s : string) : suffix_of (match_frac s).2 s.
Proof.
  unfold match_frac. destruct s as [|c s]; [apply suffix_of_refl|].
  destruct (Ascii.eqb c "."); [|apply suffix_of_refl].
  pose proof (span_digits_suffix s). destruct (span_digits s) as [[|d ds] r]; simpl in *.
  - apply suffix_of_refl.
  - now apply suffix_of_cons.
Qed.

Lemma match_exp_suffix (s : string) : suffix_of (match_exp s).2 s.
Proof.
  unfold match_exp. destruct s as [|c s]; [apply suffix_of_refl|].
  destruct (Ascii.eqb c "e" || Ascii.eqb c "E"); [|apply suffix_of_refl].
  destruct s as [|d s]; [apply suffix_of_refl|].
  destruct (Ascii.eqb d "-" || Ascii.eqb d "+").
  - pose proof (span_digits_suffix s).
    destruct (span_digits s) as [[|x ds] r]; simpl in *;
      [apply suffix_of_refl | now do 2 apply suffix_of_cons].
  - pose proof (span_digits_suffix (String d s)).
    destruct (span_digits (String d s)) as [[|x ds] r]; simpl in *;
      [apply suffix_of_refl | now apply suffix_of_cons].
Qed.

Lemma match_number_spec (s integer frac exp rest : string) :
  match_number s = Some (integer, frac, exp, rest) ->
  suffix_of rest s /\ String.length rest < String.length s
  /\ int_digits integer <= max_digit_run s.
Proof.
  unfold match_number. destruct (match_integer s) as [[i r1]|] eqn:Hi; [|discriminate].
  apply match_integer_spec in Hi as (Hs & Hl & Hd).
  pose proof (match_frac_suffix r1) as Hf. destruct (match_frac r1) as [f r2].
  pose proof (match_exp_suffix r2) as He. destruct (match_exp r2) as [e r3].
  intros [= <- _ _ <-]. simpl in *.
  assert (Hr : suffix_of r3 s).
  { apply (suffix_of_trans _ r2); [exact He|]. apply (suffix_of_trans _ r1); assumption. }
  pose proof (suffix_of_length _ _ Hf). pose proof (suffix_of_length _ _ He).
  split; [exact Hr|]. split; [lia | exact Hd].
Qed.

Lemma scan_literal_ok (depth : nat) (s : string) :
  ok decode_error_or_stop depth s (scan_literal int_max_str_digits float_of s).
Proof.
  unfold scan_literal, scan_number, scan_constant.
  repeat match goal with
  | |- context [strip_prefix ?p s] =>
      let H := fresh "H" in
      destruct (strip_prefix p s) eqn:H; [exact (strip_prefix_ok _ _ _ _ _ _ _ H)|]
  end.
  destruct (match_number s) as [[[[integer frac] exp] rest]|] eqn:Hn.
  - apply match_number_spec in Hn as (Hs & Hl & Hd).
    destruct (PyStr.is_empty frac && PyStr.is_empty exp); [|simpl; auto].
    unfold parse_int.
    destruct (exceeds_max_str_digits int_max_str_digits (int_digits integer)) eqn:He;
      cbn [bind]; [|simpl; auto].
    simpl. exact (exceeds_mono _ _ Hd He).
  - repeat match goal with
    | |- context [strip_prefix ?p s] =>
        let H := fresh "H" in
        destruct (strip_prefix p s) eqn:H; [exact (strip_prefix_ok _ _ _ _ _ _ _ H)|]
    end.
    reflexivity.
Qed.

Lemma prepend_ok (depth : nat) (chunk s s' : string) (r : result (string * string)) :
  suffix_of s' s ->
  ok decode_error_only depth s' r -> ok decode_error_only depth s (prepend chunk r).
Proof.
  intros Hs Hr. apply (scan_ok_weaken _ _ _ _ _ Hs) in Hr.
  destruct r as [p|e|]; exact Hr.
Qed.

Lemma decode_uXXXX_cases (h1 h2 h3 h4 : ascii) :
  (exists uni, decode_uXXXX h1 h2 h3 h4 = Returns uni)
  \/ decode_uXXXX h1 h2 h3 h4 = Raises JSONDecodeError.
Proof.
  unfold decode_uXXXX.
  destruct (hex_value h1), (hex_value h2), (hex_value h3), (hex_value h4); eauto.
Qed.

Lemma scanstring_ok_below (depth n : nat) (s : string) :
  String.length s < n -> ok decode_error_only depth s (scanstring s).
Proof.
  revert s. induction n as [|n IH]; intros s Hn; [lia|].
  destruct s as [|c rest]; [reflexivity|]. cbn [scanstring].
  repeat first
    [ reflexivity
    | progress (simpl String.length in *)
    | match goal with
      | |- scan_ok _ _ _ _ (Returns _) => simpl; split; [lia | solve_suffix]
      | |- scan_ok _ _ _ _ (prepend _ (scanstring ?r)) =>
          apply (prepend_ok _ _ _ r); [solve_suffix | apply IH; simpl in *; lia]
      | |- scan_ok _ _ _ _ (bind (decode_uXXXX ?a ?b ?c ?d) _) =>
          destruct (decode_uXXXX_cases a b c d) as [[? ->]| ->]; cbn [bind]
      | |- scan_ok _ _ _ _ (if ?b then _ else _) => destruct b
      | |- scan_ok _ _ _ _ (match ?x with _ => _ end) => destruct x
      end ].
Qed.

Lemma scanstring_ok (depth : nat) (s : string) :
  ok decode_error_only depth s (scanstring s).
Proof. apply (scanstring_ok_below depth (S (String.length s))). lia. Qed.

Lemma expecting_value_ok {A : Type} (depth : nat) (s : string) (r : result (A * string)) :
  ok decode_error_or_stop depth s r -> ok decode_error_only depth s (expecting_value r).
Proof. destruct r as [p|[]|]; simpl; auto; discriminate. Qed.

Section Loops.
Variable scan_once : string -> result (value * string).
Variable limit depth : nat.
Hypothesis scan_below_limit :
  forall s, String.length s < limit -> ok decode_error_or_stop depth s (scan_once s).

Lemma array_loop_ok (fuel : nat) (s : string) (values : list value) :
  String.length s < fuel -> String.length s < limit ->
  ok decode_error_only depth s (array_loop scan_once fuel s values).
Proof.
  revert s values. induction fuel as [|fuel IH]; intros s values Hf Hl; [lia|].
  cbn [array_loop].
  pose proof (expecting_value_ok _ s _ (scan_below_limit s Hl)) as Hv.
  destruct (expecting_value (scan_once s)) as [[v rest]|e|]; cbn [bind]; [|exact Hv|exact Hv].
  simpl in Hv. destruct Hv as [Hv Hvs].
  pose proof (skip_ws_length rest) as Hw. pose proof (skip_ws_suffix rest) as Hws.
  cbn [fst snd].
  destruct (skip_ws rest) as [|c rest1]; [reflexivity|]. simpl in Hw.
  assert (Hr1 : suffix_of rest1 s).
  { eapply suffix_of_trans; [|exact Hvs]. eapply suffix_of_trans; [|exact Hws]. solve_suffix. }
  destruct (Ascii.eqb c "]"); [simpl; split; [lia | exact Hr1]|].
  destruct (Ascii.eqb c ","); [|reflexivity].
  pose proof (skip_ws_length rest1). pose proof (skip_ws_suffix rest1) as Hws1.
  apply (scan_ok_weaken _ _ (skip_ws rest1)); [eapply suffix_of_trans; eassumption|].
  apply IH; lia.
Qed.

Lemma JSONArray_ok (fuel : nat) (s : string) :
  String.length s < fuel -> String.length s < limit ->
  ok decode_error_only (S depth) (String "[" s) (JSONArray scan_once fuel s).
Proof.
  intros Hf Hl. apply (scan_ok_open _ "["); [reflexivity|].
  unfold JSONArray. pose proof (skip_ws_length s) as Hw.
  pose proof (skip_ws_suffix s) as Hws.
  destruct (skip_ws s) as [|c rest] eqn:E.
  - apply (scan_ok_weaken _ _ EmptyString); [exact Hws|]. apply array_loop_ok; simpl; lia.
  - simpl in Hw. destruct (Ascii.eqb c "]").
    + simpl. split; [lia|]. eapply suffix_of_trans; [|exact Hws]. solve_suffix.
    + apply (scan_ok_weaken _ _ (String c rest)); [exact Hws|].
      apply array_loop_ok; simpl; lia.
Qed.

Lemma object_loop_ok (fuel : nat) (s : string) (pairs : list (string * value)) :
  String.length s < fuel -> String.length s < limit ->
  ok decode_error_only depth s (object_loop scan_once fuel s pairs).
Proof.
  revert s pairs. induction fuel as [|fuel IH]; intros s pairs Hf Hl; [lia|].
  cbn [object_loop].
  pose proof (scanstring_ok depth s) as Hk.
  destruct (scanstring s) as [[k rest]|e|]; cbn [bind]; [|exact Hk|exact Hk].
  simpl in Hk. destruct Hk as [Hk Hks]. cbn [fst snd].
  pose proof (skip_ws_length rest) as Hw. pose proof (skip_ws_suffix rest) as Hws.
  destruct (skip_ws rest) as [|colon rest1]; [reflexivity|]. simpl in Hw.
  assert (Hr1 : suffix_of rest1 s).
  { eapply suffix_of_trans; [|exact Hks]. eapply suffix_of_trans; [|exact Hws]. solve_suffix. }
  destruct (Ascii.eqb colon ":"); [|reflexivity].
  pose proof (skip_ws_length rest1) as Hw1. pose proof (skip_ws_suffix rest1) as Hws1.
  assert (Hl1 : String.length (skip_ws rest1) < limit) by lia.
  assert (Hs1 : suffix_of (skip_ws rest1) s) by (eapply suffix_of_trans; eassumption).
  pose proof (expecting_value_ok _ _ _ (scan_below_limit _ Hl1)) as Hv.
  apply (scan_ok_weaken _ _ _ _ _ Hs1) in Hv.
  destruct (expecting_value (scan_once (skip_ws rest1))) as [[v rest2]|e|];
    cbn [bind]; [|exact Hv|exact Hv].
  pose proof (expecting_value_ok _ _ _ (scan_below_limit _ Hl1)) as Hv'.
  clear Hv'. simpl in Hv. destruct Hv as [Hv Hvs]. cbn [fst snd].
  pose proof (skip_ws_length rest2) as Hw2. pose proof (skip_ws_suffix rest2) as Hws2.
  destruct (skip_ws rest2) as [|c rest3]; [reflexivity|]. simpl in Hw2.
  assert (Hr3 : suffix_of rest3 s).
  { eapply suffix_of_trans; [|exact Hvs]. eapply suffix_of_trans; [|exact Hws2].
    solve_suffix. }
  destruct (Ascii.eqb c "}"); [simpl; split; [lia | exact Hr3]|].
  destruct (Ascii.eqb c ","); [|reflexivity].
  pose proof (skip_ws_length rest3) as Hw3. pose proof (skip_ws_suffix rest3) as Hws3.
  destruct (skip_ws rest3) as [|q rest4]; [reflexivity|]. simpl in Hw3.
  destruct (Ascii.eqb q PyStr.dquote); [|reflexivity].
  apply (scan_ok_weaken _ _ rest4).
  { eapply suffix_of_trans; [|exact Hr3]. eapply suffix_of_trans; [|exact Hws3].
    solve_suffix. }
  apply IH; lia.
Qed.

Lemma JSONObject_ok (fuel : nat) (s : string) :
  String.length s < fuel -> String.length s < limit ->
  ok decode_error_only (S depth) (String "{" s) (JSONObject scan_once fuel s).
Proof.
  intros Hf Hl. apply (scan_ok_open _ "{"); [reflexivity|].
  unfold JSONObject. pose proof (skip_ws_length s) as Hw.
  pose proof (skip_ws_suffix s) as Hws.
  destruct (skip_ws s) as [|c rest]; [reflexivity|]. simpl in Hw.
  destruct (Ascii.eqb c "}").
  { simpl. split; [lia|]. eapply suffix_of_trans; [|exact Hws]. solve_suffix. }
  destruct (Ascii.eqb c PyStr.dquote); [|reflexivity].
  apply (scan_ok_weaken _ _ rest).
  { eapply suffix_of_trans; [|exact Hws]. solve_suffix. }
  apply object_loop_ok; lia.
Qed.
End Loops.

(** With more fuel than characters the fuel is never used up: the
    scanner returns, or raises a decoding error, or [RecursionError] at a
    text with more opening brackets than calls left, or [ValueError] at a
    text with a run of digits over the limit. *)
Lemma scan_once_ok (fuel depth : nat) (s : string) :
  String.length s < fuel ->
  ok decode_error_or_stop depth s (scan_once int_max_str_digits float_of fuel depth s).
Proof.
  revert depth s. induction fuel as [|fuel IH]; intros depth s Hf; [lia|].
  cbn [scan_once]. destruct s as [|nextchar rest]; [reflexivity|].
  simpl in Hf.
  destruct (Ascii.eqb nextchar PyStr.dquote).
  { pose proof (scanstring_ok depth rest) as Hs.
    apply (scan_ok_weaken _ _ _ (String nextchar rest)) in Hs; [|solve_suffix].
    destruct (scanstring rest) as [[k r]|[]|]; simpl in *; auto; discriminate. }
  destruct (Ascii.eqb_spec nextchar "{") as [->|_].
  { destruct depth as [|depth]; [simpl; lia|].
    apply scan_ok_allow. apply (JSONObject_ok _ fuel depth (IH depth)); lia. }
  destruct (Ascii.eqb_spec nextchar "[") as [->|_].
  { destruct depth as [|depth]; [simpl; lia|].
    apply scan_ok_allow. apply (JSONArray_ok _ fuel depth (IH depth)); lia. }
  apply scan_literal_ok.
Qed.

Local Abbreviation loads' := (loads recursion_limit int_max_str_digits float_of).

Lemma decode_ok (s : string) :
  match loads' s with
  | Returns _ | Raises JSONDecodeError => True
  | Raises RecursionError => recursion_limit < open_count s
  | Raises ValueError =>
      exceeds_max_str_digits int_max_str_digits (max_digit_run s) = true
  | _ => False
  end.
Proof.
  unfold loads. destruct (PyStr.starts_with_codes _ s); [exact I|].
  unfold decode. pose proof (skip_ws_length s) as Hw.
  assert (Hs : String.length (skip_ws s) < S (String.length s)) by lia.
  pose proof (expecting_value_ok _ _ _
                (scan_once_ok (S (String.length s)) recursion_limit (skip_ws s) Hs)) as Hv.
  apply (scan_ok_weaken _ _ _ _ _ (skip_ws_suffix s)) in Hv.
  destruct (expecting_value _) as [[v rest]|[]|]; simpl in Hv; try discriminate;
    cbn [bind fst snd]; try exact Hv; try exact I.
  now destruct (skip_ws rest).
Qed.

(** [json.loads] returns or raises one of three exceptions. *)
Lemma loads_cases (s : string) :
  (exists parsed, loads' s = Returns parsed)
  \/ loads' s = Raises JSONDecodeError
  \/ loads' s = Raises RecursionError
  \/ loads' s = Raises ValueError.
Proof.
  pose proof (decode_ok s) as H. destruct (loads' s) as [parsed|[]|]; eauto; contradiction.
Qed.


Lemma loads_empty : loads' EmptyString = Raises JSONDecodeError.
Proof. reflexivity. Qed.

End JsonFacts.

(** ** Generic decoding of the shell's output *)

Section ParseJsonFacts.
Variables recursion_limit int_max_str_digits : nat.
Variable float_of : string -> string.

Local Abbreviation loads' := (Json.loads recursion_limit int_max_str_digits float_of).
Local Abbreviation parse_json_output' :=
  (parse_json_output recursion_limit int_max_str_digits float_of).

Lemma parse_json_output_decoded (raw_json : string) parsed :
  loads' raw_json = Returns parsed ->
  parse_json_output' raw_json = Returns (as_records parsed).
Proof.
  intros H. unfold parse_json_output. destruct raw_json as [|c rest].
  - rewrite loads_empty in H. discriminate.
  - cbn [PyStr.is_empty]. rewrite H. reflexivity.
Qed.

Lemma parse_json_output_malformed (raw_json : string) :
  loads' raw_json = Raises JSONDecodeError ->
  parse_json_output' raw_json = Returns [].
Proof.
  intros H. unfold parse_json_output. destruct (PyStr.is_empty raw_json); [reflexivity|].
  rewrite H. reflexivity.
Qed.

(** The exceptions of the interpreter's limits are not caught. *)
Lemma parse_json_output_uncaught (raw_json : string) (e : exn) :
  loads' raw_json = Raises e -> e <> JSONDecodeError ->
  parse_json_output' raw_json = Raises e.
Proof.
  intros H He. unfold parse_json_output. destruct raw_json as [|c rest].
  - rewrite loads_empty in H. congruence.
  - cbn [PyStr.is_empty]. rewrite H. now destruct e.
Qed.


End ParseJsonFacts.




(** ** Campaign table *)

Section CampaignFacts.
Implicit Types (rec : record) (records : list record).

Lemma of_pairs_fold {A : Type} (pairs : list (string * A)) (d : pydict A) (k : string) :
  Dict.get (fold_left (fun d kv => Dict.set d kv.1 kv.2) pairs d) k
  = match last (map snd (List.filter (fun kv => String.eqb kv.1 k) pairs)) with
    | Some v => Some v
    | None => Dict.get d k
    end.
Proof.
  revert d. induction pairs as [|[k0 v0] pairs IH]; intros d; simpl; [reflexivity|].
  rewrite IH, dict_get_set. destruct (String.eqb k0 k); simpl; [|reflexivity].
  rewrite last_cons.
  now destruct (last (map snd (List.filter (fun kv => String.eqb kv.1 k) pairs))).
Qed.

(** The dict comprehension of the source implements the case-insensitive
    lookup. *)
Lemma lower_keys_get rec (field : string) :
  Dict.get (lower_keys rec) field = lookup_ci rec field.
Proof.
  unfold lower_keys, Dict.of_pairs, lookup_ci. rewrite of_pairs_fold. simpl.
  replace (map snd (List.filter (fun kv => String.eqb kv.1 field)
             (map (fun kv => (PyStr.lower kv.1, kv.2)) rec)))
    with (map snd (List.filter (fun kv => String.eqb (PyStr.lower kv.1) field) rec)).
  - now destruct (last _).
  - induction rec as [|[k v] rec IH]; simpl; [reflexivity|].
    destruct (String.eqb (PyStr.lower k) field); simpl; now rewrite IH.
Qed.

Lemma lookup_ci_lacks rec (field : string) : lacks_ci rec field -> lookup_ci rec field = None.
Proof.
  unfold lacks_ci, lookup_ci, Dict.keys. induction rec as [|[k v] rec IH]; simpl; intros H.
  - reflexivity.
  - apply Forall_cons in H as [Hk H]. simpl in Hk.
    destruct (String.eqb_spec (PyStr.lower k) field); [contradiction|]. now apply IH.
Qed.

Lemma int_map_get_hashable table (v : value) :
  hashable v = true -> int_map_get table v (Py.str v) = Returns (label_of table v).
Proof. intros H. unfold int_map_get, label_of. now rewrite H. Qed.

Lemma int_map_get_unhashable table (v : value) default :
  hashable v = false -> int_map_get table v default = Raises TypeError.
Proof. intros H. unfold int_map_get. now rewrite H. Qed.

Lemma normalize_campaign_hashable rec :
  campaign_hashable rec -> normalize_campaign rec = Returns (campaign_row rec).
Proof.
  intros [Hs Ht]. unfold normalize_campaign, Dict.get_none, Dict.get_or.
  rewrite !lower_keys_get. fold (campaign_field rec "state") (campaign_field rec "type").
  rewrite (int_map_get_hashable _ _ Hs), (int_map_get_hashable _ _ Ht). reflexivity.
Qed.

Lemma normalize_campaign_unhashable_state rec :
  hashable (campaign_field rec "state") = false -> normalize_campaign rec = Raises TypeError.
Proof.
  intros Hs. unfold normalize_campaign, Dict.get_none, Dict.get_or.
  rewrite !lower_keys_get. fold (campaign_field rec "state").
  now rewrite (int_map_get_unhashable _ _ _ Hs).
Qed.

Lemma for_each_normalize records :
  Forall campaign_hashable records ->
  for_each normalize_campaign records = Returns (map campaign_row records).
Proof.
  induction 1 as [|rec records Hrec _ IH]; simpl; [reflexivity|].
  now rewrite (normalize_campaign_hashable _ Hrec), IH.
Qed.

Lemma union_keys_campaign_rows records (labels : list string) :
  labels = ["Name"; "State"; "Type"] ->
  fold_left (fun labels rec => fold_left add_label (Dict.keys rec) labels)
    (map campaign_row records) labels = labels.
Proof.
  intros ->. induction records as [|rec records IH]; simpl; [reflexivity|]. exact IH.
Qed.

Lemma from_records_campaign_rows records :
  from_records (map campaign_row records) = campaign_frame records.
Proof.
  unfold from_records, campaign_frame, union_keys.
  destruct records as [|rec records]; [reflexivity|].
  cbn [map fold_left]. change (fold_left add_label (Dict.keys (campaign_row rec)) [])
    with ["Name"; "State"; "Type"].
  rewrite union_keys_campaign_rows by reflexivity. cbn [length]. rewrite length_map.
  f_equal. f_equal. rewrite map_map. reflexivity.
Qed.

Lemma parse_campaigns_json_hashable records :
  Forall campaign_hashable records ->
  parse_campaigns_json records = Returns (campaign_frame records).
Proof.
  intros H. unfold parse_campaigns_json. rewrite (for_each_normalize _ H). simpl.
  now rewrite from_records_campaign_rows.
Qed.

Lemma lookup_ci_last rec (k : string) (v : value) :
  lookup_ci (rec ++ [(k, v)]) (PyStr.lower k) = Some v.
Proof.
  unfold lookup_ci. rewrite List.filter_app, map_app. simpl.
  rewrite String.eqb_refl. simpl. apply last_snoc.
Qed.

Lemma label_of_state_int (n : Z) :
  label_of STATE_MAP (VInt n)
  = if (n =? 0)%Z then "Not Running" else if (n =? 1)%Z then "Starting"
    else if (n =? 2)%Z then "Running" else if (n =? 3)%Z then "Stopping"
    else PyStr.of_Z n.
Proof.
  unfold label_of, STATE_MAP. cbn [List.find int_key_eq fst snd].
  rewrite !(Z.eqb_sym _ n). now repeat destruct (_ =? _)%Z.
Qed.

Lemma label_of_type_int (n : Z) :
  label_of TYPE_MAP (VInt n)
  = if (n =? 0)%Z then "Inbound" else if (n =? 1)%Z then "Outbound"
    else if (n =? 2)%Z then "AutoDial" else PyStr.of_Z n.
Proof.
  unfold label_of, TYPE_MAP. cbn [List.find int_key_eq fst snd].
  rewrite !(Z.eqb_sym _ n). now repeat destruct (_ =? _)%Z.
Qed.

(** C3, as amended.  For records whose state and type can be hashed,
    [parse_campaigns_json] returns one row per record with the cells Name,
    State and Type; the fields are looked up on the lowered keys, the last
    matching key winning; State and Type are the label of the table key the
    value equals -- the integers of the table, and the booleans and floats
    equal to them -- and otherwise the string form of the value. *)
Theorem parse_campaigns_json_labels records :
  Forall campaign_hashable records ->
  parse_campaigns_json records = Returns (campaign_frame records)
  /\ (forall rec k v, lookup_ci (rec ++ [(k, v)]) (PyStr.lower k) = Some v)
  /\ (forall n : Z,
        label_of STATE_MAP (VInt n)
        = if (n =? 0)%Z then "Not Running" else if (n =? 1)%Z then "Starting"
          else if (n =? 2)%Z then "Running" else if (n =? 3)%Z then "Stopping"
          else PyStr.of_Z n)
  /\ (forall n : Z,
        label_of TYPE_MAP (VInt n)
        = if (n =? 0)%Z then "Inbound" else if (n =? 1)%Z then "Outbound"
          else if (n =? 2)%Z then "AutoDial" else PyStr.of_Z n)
  /\ (forall table s, label_of table (VStr s) = s)
  /\ (forall table, label_of table VNone = "None")
  /\ (forall b : bool,
        label_of STATE_MAP (VBool b) = (if b then "Starting" else "Not Running")
        /\ label_of TYPE_MAP (VBool b) = (if b then "Outbound" else "Inbound"))
  /\ label_of STATE_MAP (VFloat "1.0") = "Starting"
  /\ parse_campaigns_json [[("Name", VStr "X"); ("State", VInt 2); ("Type", VInt 1)]]
     = Returns {| columns := ["Name"; "State"; "Type"]; index := [0];
                  rows := [[VStr "X"; VStr "Running"; VStr "Outbound"]] |}
  /\ parse_campaigns_json [[("name", VStr "Y"); ("state", VInt 9); ("type", VStr "custom")]]
     = Returns {| columns := ["Name"; "State"; "Type"]; index := [0];
                  rows := [[VStr "Y"; VStr "9"; VStr "custom"]] |}.
Proof.
  intros H. split; [now apply parse_campaigns_json_hashable|].
  split; [apply lookup_ci_last|].
  split; [apply label_of_state_int|].
  split; [apply label_of_type_int|].
  split.
  { intros table s. unfold label_of.
    now induction table as [|[n l] table IH]. }
  split.
  { intros table. unfold label_of. now induction table as [|[n l] table IH]. }
  split; [now intros []|].
  repeat split; reflexivity.
Qed.

(** The two records of section 8 of the specification. *)
Lemma parse_campaigns_json_labels_witness :
  parse_campaigns_json
    [ [("Name", VStr "X"); ("State", VInt 2); ("Type", VInt 1)];
      [("name", VStr "Y"); ("state", VInt 9); ("type", VStr "custom")] ]
  = Returns {| columns := ["Name"; "State"; "Type"]; index := [0; 1];
               rows := [ [VStr "X"; VStr "Running"; VStr "Outbound"];
                         [VStr "Y"; VStr "9"; VStr "custom"] ] |}.
Proof.
  refine (proj1 (parse_campaigns_json_labels
    [ [("Name", VStr "X"); ("State", VInt 2); ("Type", VInt 1)];
      [("name", VStr "Y"); ("state", VInt 9); ("type", VStr "custom")] ] _)).
  repeat constructor.
Defined.

(** C3, as stated, fails: a boolean state and a float type are not
    integers, yet they take the labels of the keys 1 and 1.0 equals, not
    their string forms ["True"] and ["1.0"]. *)
Lemma parse_campaigns_json_non_integer_labelled :
  parse_campaigns_json [[("name", VStr "Z"); ("state", VBool true); ("type", VFloat "1.0")]]
  = Returns {| columns := ["Name"; "State"; "Type"]; index := [0];
               rows := [[VStr "Z"; VStr "Starting"; VStr "Outbound"]] |}
  /\ Py.str (VBool true) = "True"
  /\ Py.str (VFloat "1.0") = "1.0".
Proof. repeat split; reflexivity. Qed.

(** C9, as amended.  For a record whose state and type can be hashed,
    State and Type are strings; Name is the empty string when no key is
    ["name"] in any casing, and State (Type) is ["None"] when no key is
    ["state"] (["type"]) in any casing. *)
Theorem parse_campaigns_json_missing_fields rec :
  campaign_hashable rec ->
  (exists name state type,
     parse_campaigns_json [rec]
     = Returns {| columns := ["Name"; "State"; "Type"]; index := [0];
                  rows := [[name; VStr state; VStr type]] |}
     /\ (lacks_ci rec "name" -> name = VStr EmptyString)
     /\ (lacks_ci rec "state" -> state = "None")
     /\ (lacks_ci rec "type" -> type = "None")).
Proof.
  intros H.
  exists (default (VStr EmptyString) (lookup_ci rec "name")),
         (label_of STATE_MAP (campaign_field rec "state")),
         (label_of TYPE_MAP (campaign_field rec "type")).
  split.
  { rewrite parse_campaigns_json_hashable by now constructor. reflexivity. }
  unfold campaign_field.
  repeat split; intros Hl; rewrite (lookup_ci_lacks _ _ Hl); reflexivity.
Qed.

(** A record with a name only, written [{"NAME": "only"}]. *)
Lemma parse_campaigns_json_missing_fields_witness :
  exists name state type,
    parse_campaigns_json [[("NAME", VStr "only")]]
    = Returns {| columns := ["Name"; "State"; "Type"]; index := [0];
                 rows := [[name; VStr state; VStr type]] |}
    /\ (lacks_ci [("NAME", VStr "only")] "name" -> name = VStr EmptyString)
    /\ (lacks_ci [("NAME", VStr "only")] "state" -> state = "None")
    /\ (lacks_ci [("NAME", VStr "only")] "type" -> type = "None").
Proof.
  apply (parse_campaigns_json_missing_fields [("NAME", VStr "only")]).
  split; reflexivity.
Defined.

(** C9, as stated, fails: a record whose state is an array makes
    [parse_campaigns_json] raise [TypeError]. *)
Lemma parse_campaigns_json_array_state :
  parse_campaigns_json [[("name", VStr "Y"); ("state", VList [])]] = Raises TypeError.
Proof. reflexivity. Qed.

End CampaignFacts.

(** ** Contact-list table *)

Section SortFacts.

Lemma string_leb_trans (a b c : string) :
  String.leb a b = true -> String.leb b c = true -> String.leb a c = true.
Proof.
  unfold String.leb. revert b c.
  induction a as [|x a IH]; intros [|y b] [|z c]; simpl; try easy.
  unfold Ascii.compare.
  destruct (N.compare_spec (N_of_ascii x) (N_of_ascii y)) as [Hxy|Hxy|Hxy];
    destruct (N.compare_spec (N_of_ascii y) (N_of_ascii z)) as [Hyz|Hyz|Hyz];
    destruct (N.compare_spec (N_of_ascii x) (N_of_ascii z)) as [Hxz|Hxz|Hxz];
    try easy; try lia.
  apply IH.
Qed.

Context {A : Type}.
Variable name_of : A -> string.

Lemma insert_sorted_perm (x : A) (l : list A) :
  Permutation (insert_sorted name_of x l) (x :: l).
Proof.
  induction l as [|y l IH]; simpl; [reflexivity|].
  destruct (String.leb (name_of x) (name_of y)); [reflexivity|].
  rewrite IH. apply perm_swap.
Qed.

Lemma sort_by_name_perm (l : list A) : Permutation (sort_by_name name_of l) l.
Proof.
  induction l as [|x l IH]; simpl; [reflexivity|].
  rewrite insert_sorted_perm. now constructor.
Qed.

Lemma insert_sorted_sorted (x : A) (l : list A) :
  StronglySorted (le_by name_of) l ->
  StronglySorted (le_by name_of) (insert_sorted name_of x l).
Proof.
  unfold le_by.
  induction 1 as [|y l Hl IH Hy]; simpl; [repeat constructor|].
  destruct (String.leb (name_of x) (name_of y)) eqn:E.
  - constructor; [now constructor|]. constructor; [exact E|].
    eapply List.Forall_impl; [|exact Hy]. intros z Hz. eapply string_leb_trans; eauto.
  - constructor; [exact IH|].
    assert (Hyx : String.leb (name_of y) (name_of x) = true).
    { destruct (String.leb_total (name_of x) (name_of y)); [congruence | assumption]. }
    apply List.Forall_forall. intros z Hz.
    apply (Permutation_in _ (insert_sorted_perm x l)) in Hz. destruct Hz as [<-|Hz].
    + exact Hyx.
    + rewrite List.Forall_forall in Hy. now apply Hy.
Qed.

Lemma sort_by_name_sorted (l : list A) :
  StronglySorted (le_by name_of) (sort_by_name name_of l).
Proof.
  induction l as [|x l IH]; simpl; [constructor|]. now apply insert_sorted_sorted.
Qed.
End SortFacts.

Lemma sort_by_name_map {A B : Type} (f : A -> B) (g : B -> string) (h : A -> string)
    (l : list A) :
  (forall x, g (f x) = h x) ->
  sort_by_name g (map f l) = map f (sort_by_name h l).
Proof.
  intros Hgh. induction l as [|x l IH]; simpl; [reflexivity|]. rewrite IH.
  generalize (sort_by_name h l). intros l'.
  induction l' as [|y l' IH']; simpl; [reflexivity|].
  rewrite !Hgh. destruct (String.leb (h x) (h y)); simpl; [reflexivity|]. now rewrite IH'.
Qed.

Section ListsFacts.
Implicit Types (rec : record) (records : list record) (labels : list string).

Lemma add_label_fold_elem (ks labels : list string) (k : string) :
  k ∈ fold_left add_label ks labels <-> k ∈ labels \/ k ∈ ks.
Proof.
  revert labels. induction ks as [|k0 ks IH]; intros labels; simpl.
  - rewrite elem_of_nil. tauto.
  - rewrite IH, elem_of_cons. unfold add_label.
    destruct (Py.str_in k0 labels) eqn:E.
    + apply str_in_spec in E. split; [tauto|]. intros [?|[->|?]]; tauto.
    + rewrite elem_of_app, list_elem_of_singleton. tauto.
Qed.

Lemma union_keys_fold_elem records labels (k : string) :
  k ∈ fold_left (fun labels rec => fold_left add_label (Dict.keys rec) labels) records labels
  <-> k ∈ labels \/ exists rec, rec ∈ records /\ k ∈ Dict.keys rec.
Proof.
  revert labels. induction records as [|rec records IH]; intros labels; simpl.
  - split; [tauto|]. intros [?|(rec & Hrec & _)]; [assumption|]. now apply elem_of_nil in Hrec.
  - rewrite IH, add_label_fold_elem. split.
    + intros [[?|?]|(r & Hr & Hk)]; [tauto| |].
      * right. exists rec. split; [left|assumption].
      * right. exists r. split; [now right|assumption].
    + intros [?|(r & Hr & Hk)]; [tauto|].
      apply elem_of_cons in Hr as [->|Hr]; [tauto|]. right. eauto.
Qed.

Lemma position_elem (k : string) labels :
  k ∈ labels -> exists i, position k labels = Some i
    /\ forall (B : Type) (g : string -> B) (d : B), nth i (map g labels) d = g k.
Proof.
  induction labels as [|k0 labels IH]; intros H; [now apply elem_of_nil in H|].
  simpl. destruct (String.eqb_spec k0 k) as [->|Hne].
  - exists 0. split; [reflexivity|]. reflexivity.
  - apply elem_of_cons in H as [->|H]; [congruence|].
    destruct (IH H) as (i & -> & Hi). exists (S i). split; [reflexivity|]. exact Hi.
Qed.

Lemma has_name_key rec : has_name rec -> "name" ∈ Dict.keys rec.
Proof.
  intros [s Hs]. destruct (decide ("name" ∈ Dict.keys rec)) as [|Hn]; [assumption|].
  apply dict_get_None in Hn. congruence.
Qed.

Lemma has_name_cell rec labels (i : nat) :
  has_name rec ->
  (forall (B : Type) (g : string -> B) (d : B), nth i (map g labels) d = g "name") ->
  key_of (cell i (row_of labels rec)) = KStr (record_name rec).
Proof.
  intros [s Hs] Hi. unfold cell, row_of, record_name, Dict.get_or.
  rewrite Hi, Hs. reflexivity.
Qed.

Section NamedRows.
Variables (labels : list string) (i : nat).
Hypothesis name_at_i :
  forall (B : Type) (g : string -> B) (d : B), nth i (map g labels) d = g "name".

Lemma named_rows_present (pairs : list (nat * record)) :
  Forall (fun p : nat * record => has_name p.2) pairs ->
  List.filter (fun r => negb (is_na_at i r))
    (map (fun p : nat * record => (p.1, row_of labels p.2)) pairs)
  = map (fun p : nat * record => (p.1, row_of labels p.2)) pairs.
Proof.
  induction 1 as [|p pairs Hp _ IH]; simpl; [reflexivity|].
  unfold is_na_at at 1. cbn [snd]. rewrite (has_name_cell _ _ _ Hp name_at_i). simpl.
  now rewrite IH.
Qed.

Lemma named_rows_missing (pairs : list (nat * record)) :
  Forall (fun p : nat * record => has_name p.2) pairs ->
  List.filter (is_na_at i) (map (fun p : nat * record => (p.1, row_of labels p.2)) pairs) = [].
Proof.
  induction 1 as [|p pairs Hp _ IH]; simpl; [reflexivity|].
  unfold is_na_at at 1. cbn [snd]. rewrite (has_name_cell _ _ _ Hp name_at_i). exact IH.
Qed.

Lemma named_rows_keys (pairs : list (nat * record)) :
  Forall (fun p : nat * record => has_name p.2) pairs ->
  string_keys i (map (fun p : nat * record => (p.1, row_of labels p.2)) pairs)
  = Some (map (fun p : nat * record => (record_name p.2, (p.1, row_of labels p.2))) pairs).
Proof.
  induction 1 as [|p pairs Hp _ IH]; simpl; [reflexivity|].
  rewrite (has_name_cell _ _ _ Hp name_at_i), IH. reflexivity.
Qed.
End NamedRows.

(** The sort of the labelled rows of a table whose records all have a
    name. *)
Lemma sort_values_named records labels (idx : list nat) (i : nat) :
  Forall has_name records ->
  position "name" labels = Some i ->
  (forall (B : Type) (g : string -> B) (d : B), nth i (map g labels) d = g "name") ->
  let sorted := sort_by_name (fun p : nat * record => record_name p.2) (combine idx records) in
  sort_values {| columns := labels; index := idx; rows := map (row_of labels) records |} "name"
  = Returns {| columns := labels;
               index := map fst sorted;
               rows := map (row_of labels) (map snd sorted) |}.
Proof.
  intros Hnames Hpos Hi sorted. unfold sort_values. cbn [columns]. rewrite Hpos.
  assert (Hlab : labelled {| columns := labels; index := idx;
                             rows := map (row_of labels) records |}
                 = map (fun p : nat * record => (p.1, row_of labels p.2)) (combine idx records)).
  { unfold labelled. cbn [index rows]. clear sorted Hnames. revert idx.
    induction records as [|rec records IH]; intros [|j idx]; simpl; try reflexivity.
    f_equal. apply IH. }
  rewrite Hlab.
  assert (Hall : Forall (fun p : nat * record => has_name p.2) (combine idx records)).
  { apply Forall_forall. intros [j rec] Hin. apply list_elem_of_In, in_combine_r in Hin.
    rewrite List.Forall_forall in Hnames. now apply Hnames. }
  rewrite (named_rows_present _ _ Hi _ Hall), (named_rows_missing _ _ Hi _ Hall),
    (named_rows_keys _ _ Hi _ Hall).
  rewrite (sort_by_name_map _ fst (fun p : nat * record => record_name p.2)) by reflexivity.
  fold sorted. rewrite app_nil_r, !map_map. reflexivity.
Qed.

Lemma map_snd_combine {A B : Type} (l1 : list A) (l2 : list B) :
  length l1 = length l2 -> map snd (combine l1 l2) = l2.
Proof.
  revert l2. induction l1 as [|x l1 IH]; intros [|y l2]; simpl; try easy.
  intros [= H]. now rewrite IH.
Qed.

Lemma StronglySorted_map_snd (pairs : list (nat * record)) :
  StronglySorted (le_by (fun p : nat * record => record_name p.2)) pairs ->
  StronglySorted name_le (map snd pairs).
Proof.
  induction 1 as [|p pairs _ IH Hp]; simpl; constructor; [exact IH|].
  apply List.Forall_map. exact Hp.
Qed.

Lemma parse_domain_lists_json_named records :
  Forall has_name records ->
  exists ordered,
    Permutation ordered records
    /\ StronglySorted name_le ordered
    /\ parse_domain_lists_json records = Returns (lists_frame records ordered).
Proof.
  intros Hnames. destruct records as [|rec0 records'] eqn:E.
  { exists []. repeat split; constructor. }
  rewrite <- E in *. assert (Hne : records <> []) by (rewrite E; discriminate).
  assert (Hin : "name" ∈ union_keys records).
  { unfold union_keys. apply union_keys_fold_elem. right. exists rec0.
    rewrite E. split; [left|]. apply has_name_key.
    rewrite E in Hnames. now apply Forall_cons in Hnames. }
  destruct (position_elem _ _ Hin) as (i & Hpos & Hi).
  set (sorted := sort_by_name (fun p : nat * record => record_name p.2)
                   (combine (seq 0 (length records)) records)).
  assert (Hperm : Permutation sorted (combine (seq 0 (length records)) records))
    by apply sort_by_name_perm.
  exists (map snd sorted). split; [|split].
  - rewrite Hperm, map_snd_combine; [reflexivity | apply length_seq].
  - apply StronglySorted_map_snd, sort_by_name_sorted.
  - unfold parse_domain_lists_json.
    assert (Hfrom : from_records records
                    = {| columns := union_keys records;
                         index := seq 0 (length records);
                         rows := map (row_of (union_keys records)) records |}).
    { unfold from_records. destruct (union_keys records); [now apply elem_of_nil in Hin|].
      reflexivity. }
    assert (Hempty : empty {| columns := union_keys records;
                              index := seq 0 (length records);
                              rows := map (row_of (union_keys records)) records |} = false).
    { unfold empty. cbn [columns index].
      destruct (union_keys records); [now apply elem_of_nil in Hin|].
      rewrite E. reflexivity. }
    rewrite Hfrom, Hempty, (sort_values_named _ _ _ _ Hnames Hpos Hi). fold sorted.
    cbn [bind]. unfold reset_index, lists_frame. cbn [columns rows].
    rewrite !length_map, (Permutation_length Hperm), length_combine, length_seq, Nat.min_id.
    destruct records; [now destruct Hne | reflexivity].
Qed.

(** C4, as amended.  For a list of records that all have a string under
    the key ["name"], [parse_domain_lists_json] returns the table of the
    records, its rows in ascending order of name; the empty list yields the
    empty table with the columns name and size. *)
Theorem parse_domain_lists_json_sorted records :
  Forall has_name records ->
  (exists ordered,
     Permutation ordered records
     /\ StronglySorted name_le ordered
     /\ parse_domain_lists_json records = Returns (lists_frame records ordered))
  /\ parse_domain_lists_json []
     = Returns {| columns := ["name"; "size"]; index := []; rows := [] |}
  /\ parse_domain_lists_json
       [ [("name", VStr "B"); ("size", VInt 1)]; [("name", VStr "A"); ("size", VInt 2)] ]
     = Returns {| columns := ["name"; "size"]; index := [0; 1];
                  rows := [[VStr "A"; VInt 2]; [VStr "B"; VInt 1]] |}.
Proof.
  intros H. split; [now apply parse_domain_lists_json_named|]. split; reflexivity.
Qed.

(** The two records of section 8 of the specification. *)
Lemma parse_domain_lists_json_sorted_witness :
  exists ordered,
    Permutation ordered
      [ [("name", VStr "B"); ("size", VInt 1)]; [("name", VStr "A"); ("size", VInt 2)] ]
    /\ StronglySorted name_le ordered
    /\ parse_domain_lists_json
         [ [("name", VStr "B"); ("size", VInt 1)]; [("name", VStr "A"); ("size", VInt 2)] ]
       = Returns (lists_frame
                    [ [("name", VStr "B"); ("size", VInt 1)];
                      [("name", VStr "A"); ("size", VInt 2)] ] ordered).
Proof.
  refine (proj1 (parse_domain_lists_json_sorted
    [ [("name", VStr "B"); ("size", VInt 1)]; [("name", VStr "A"); ("size", VInt 2)] ] _)).
  repeat constructor; eexists; reflexivity.
Defined.

(** C4, as stated, fails: on a record without the key ["name"] the sort
    raises [KeyError], and a record without any key is dropped. *)
Lemma parse_domain_lists_json_without_name :
  parse_domain_lists_json [[("size", VInt 1)]] = Raises KeyError
  /\ parse_domain_lists_json [[]]
     = Returns {| columns := ["name"; "size"]; index := []; rows := [] |}.
Proof. split; reflexivity. Qed.

End ListsFacts.

(** ** Command executor *)

Section EscapeFacts.

Lemma replace_single_quote (s : string) :
  PyStr.replace_go "'" "''" 0 s = double_quotes s.
Proof.
  induction s as [|c s IH]; [reflexivity|].
  cbn [PyStr.replace_go double_quotes String.prefix String.length Nat.sub].
  destruct (ascii_dec "'" c) as [<-|Hne].
  - replace (String.prefix EmptyString s) with true by now destruct s.
    simpl. now rewrite IH.
  - destruct (Ascii.eqb_spec c PyStr.squote) as [->|_]; [now destruct Hne|].
    now rewrite IH.
Qed.

Lemma ps_escape_double_quotes (value : option string) :
  ps_escape value = double_quotes (or_empty value).
Proof. unfold ps_escape, PyStr.replace. apply replace_single_quote. Qed.

Lemma double_quotes_length (s : string) :
  String.length (double_quotes s) = String.length s + PyStr.str_count PyStr.squote s.
Proof.
  induction s as [|c s IH]; [reflexivity|].
  cbn [double_quotes PyStr.str_count].
  rewrite (Ascii.eqb_sym PyStr.squote c).
  destruct (Ascii.eqb c PyStr.squote); cbn [String.length]; rewrite IH; lia.
Qed.

Lemma append_String (c : ascii) (s t : string) : String c s +:+ t = String c (s +:+ t).
Proof. reflexivity. Qed.

Lemma app_assoc_str (a b c : string) : (a +:+ b) +:+ c = a +:+ (b +:+ c).
Proof.
  induction a as [|x a IH]; [reflexivity|]. rewrite !append_String. f_equal. exact IH.
Qed.

Lemma typographic_second (b1 b2 : ascii) (s : string) :
  PyStr.ord b2 <> 128 -> typographic_quote (String b1 (String b2 s)) = false.
Proof.
  intros H. destruct s as [|b3 s]; [reflexivity|]. cbn [typographic_quote].
  apply Nat.eqb_neq in H. rewrite H. now rewrite andb_false_r.
Qed.

Lemma typographic_third (b1 b2 : ascii) (s : string) :
  typographic_quote (String b1 (String b2 (String PyStr.squote s))) = false.
Proof. cbn [typographic_quote]. apply andb_false_r. Qed.

(** Writing the apostrophes twice makes no typographic quote. *)
Lemma typographic_escaped (c : ascii) (s rest : string) :
  c <> PyStr.squote ->
  typographic_quote (String c s) = false ->
  typographic_quote (String c (double_quotes s +:+ String PyStr.squote rest)) = false.
Proof.
  intros Hc Hs. destruct s as [|b2 s].
  - apply typographic_second. discriminate.
  - cbn [double_quotes]. destruct (Ascii.eqb_spec b2 PyStr.squote) as [->|H2].
    + apply typographic_second. discriminate.
    + rewrite append_String. destruct s as [|b3 s].
      * apply typographic_third.
      * cbn [double_quotes]. destruct (Ascii.eqb_spec b3 PyStr.squote) as [->|H3].
        -- apply typographic_third.
        -- exact Hs.
Qed.

(** Reading back an escaped text that is closed by a quote. *)
Lemma read_double_quotes (s rest : string) :
  apostrophes_only s -> no_quote_ahead rest ->
  read_single_quoted (double_quotes s +:+ String PyStr.squote rest) = Some (s, rest).
Proof.
  unfold read_single_quoted, no_quote_ahead. intros Hs Hrest.
  induction s as [|c s IH].
  - change (double_quotes EmptyString +:+ String PyStr.squote rest)
      with (String PyStr.squote rest).
    cbn [read_literal quote_width str_drop]. rewrite Ascii.eqb_refl.
    cbn [str_drop]. now rewrite Hrest.
  - destruct Hs as [Hc Hs]. specialize (IH Hs). cbn [double_quotes].
    destruct (Ascii.eqb_spec c PyStr.squote) as [->|Hne].
    + rewrite !append_String. cbn [read_literal quote_width str_drop].
      rewrite Ascii.eqb_refl. cbn [str_drop quote_width]. rewrite Ascii.eqb_refl.
      cbn [read_literal]. now rewrite IH.
    + rewrite append_String. cbn [read_literal quote_width].
      destruct (Ascii.eqb_spec c PyStr.squote) as [|_]; [contradiction|].
      rewrite (typographic_escaped c s rest Hne Hc). now rewrite IH.
Qed.

Lemma read_escaped_literal (value : option string) (rest : string) :
  apostrophes_only (or_empty value) -> no_quote_ahead rest ->
  read_single_quoted (ps_escape value +:+ String PyStr.squote rest)
  = Some (or_empty value, rest).
Proof. intros Hv H. rewrite ps_escape_double_quotes. now apply read_double_quotes. Qed.

(** C5.  At a password with a typographic quote the escaping fails:
    [ps_escape] leaves the password as it is, since it has no apostrophe,
    and in the script the password literal ends at the typographic quote,
    so that its value is only the text before that quote and the rest of
    the password is script text, run by the shell. *)
Theorem ps_escape_typographic_quote :
  ps_escape (Some quoting_password) = quoting_password
  /\ ps_script (Some "ann") (Some quoting_password) "Get-Five9List"
     = preamble_head
         +:+ after_password_quote (Some "ann") (Some quoting_password) "Get-Five9List"
  /\ read_single_quoted
       (after_password_quote (Some "ann") (Some quoting_password) "Get-Five9List")
     = Some ("pw",
             " -AsPlainText -Force; Start-Process calc #"
               +:+ String PyStr.squote password_literal_end
               +:+ after_username_quote (Some "ann") "Get-Five9List")
  /\ or_empty (Some quoting_password) <> "pw".
Proof.
  split; [reflexivity|]. split; [reflexivity|]. split; [reflexivity | discriminate].
Qed.

(** C8.  [ps_escape] returns the empty string on [None] and on the empty
    string, and the script built from absent credentials has two empty
    literals. *)
Theorem ps_escape_absent (command : string) :
  ps_escape None = EmptyString
  /\ ps_escape (Some EmptyString) = EmptyString
  /\ ps_script None None command
     = preamble_head +:+ String PyStr.squote password_literal_end
         +:+ String PyStr.squote username_literal_end +:+ command +:+ PyStr.nl
  /\ read_single_quoted (after_password_quote None None command)
     = Some (EmptyString, password_literal_end +:+ after_username_quote None command)
  /\ read_single_quoted (after_username_quote None command)
     = Some (EmptyString, username_literal_end +:+ command +:+ PyStr.nl).
Proof.
  repeat split.
Qed.

End EscapeFacts.

(** ** Background install job *)

Section InstallFacts.
Variables (_INSTALL_DIR sep : string).

Local Abbreviation STDOUT := (_INSTALL_STDOUT _INSTALL_DIR sep).
Local Abbreviation STDERR := (_INSTALL_STDERR _INSTALL_DIR sep).
Local Abbreviation LOCK := (_INSTALL_LOCK _INSTALL_DIR sep).
Local Abbreviation SCRIPT := (script_file _INSTALL_DIR sep).

Lemma append_inv_head (a b c : string) : a +:+ b = a +:+ c -> b = c.
Proof.
  induction a as [|x a IH]; [easy|]. rewrite !append_String. intros [= H]. auto.
Qed.

Lemma in_install_dir_inj (a b : string) :
  in_install_dir _INSTALL_DIR sep a = in_install_dir _INSTALL_DIR sep b -> a = b.
Proof. unfold in_install_dir. intros H. now do 2 apply append_inv_head in H. Qed.

Lemma install_paths_distinct :
  STDOUT <> STDERR /\ STDOUT <> LOCK /\ STDERR <> LOCK
  /\ SCRIPT <> STDOUT /\ SCRIPT <> STDERR /\ SCRIPT <> LOCK.
Proof. repeat split; intros H; apply in_install_dir_inj in H; discriminate. Qed.

Lemma status_fields (w : world) :
  get_install_status _INSTALL_DIR sep w
  = ({| running := bool_decide (is_Some (files w !! LOCK));
        stdout := match files w !! STDOUT with
                  | Some text => PyStr.strip text
                  | None => EmptyString
                  end;
        stderr := match files w !! STDERR with
                  | Some text => PyStr.strip text
                  | None => EmptyString
                  end;
        done := negb (bool_decide (is_Some (files w !! LOCK)))
                && (bool_decide (is_Some (files w !! STDOUT))
                    || bool_decide (is_Some (files w !! STDERR))) |}, w).
Proof.
  unfold get_install_status, read_stripped, seq_io, exists_, read_text, ret.
  destruct (files w !! STDOUT) eqn:Eo; cbn; rewrite ?Eo;
    destruct (files w !! STDERR) eqn:Ee; cbn; rewrite ?Eo, ?Ee; reflexivity.
Qed.

Lemma status_running (w : world) :
  running (get_install_status _INSTALL_DIR sep w).1 = true <-> is_Some (files w !! LOCK).
Proof. rewrite status_fields. simpl. apply bool_decide_eq_true. Qed.

Lemma start_files (command : string) (w : world) :
  files (start_install_detached _INSTALL_DIR sep command w).2
  = <[SCRIPT := wrapper_script _INSTALL_DIR sep command]>
      (<[LOCK := "running"]> (<[STDERR := EmptyString]> (<[STDOUT := EmptyString]> (files w)))).
Proof. reflexivity. Qed.

Lemma job_step_keeps_lock (w w' : world) :
  job_step _INSTALL_DIR sep w w' -> is_Some (files w !! LOCK) -> is_Some (files w' !! LOCK).
Proof.
  destruct install_paths_distinct as (_ & Hol & Hel & _).
  intros [w0 text|w0 message] H; simpl; now rewrite lookup_insert_ne.
Qed.

Lemma job_steps_keep_lock (w w' : world) :
  rtc (job_step _INSTALL_DIR sep) w w' ->
  is_Some (files w !! LOCK) -> is_Some (files w' !! LOCK).
Proof. induction 1; eauto using job_step_keeps_lock. Qed.

Lemma job_steps_keep_stdout (w w' : world) :
  rtc (job_step _INSTALL_DIR sep) w w' ->
  is_Some (files w !! STDOUT) -> is_Some (files w' !! STDOUT).
Proof.
  destruct install_paths_distinct as (Hoe & _).
  induction 1 as [|x y z Hxy _ IH]; [auto|]. intros Hx. apply IH.
  destruct Hxy; simpl.
  - rewrite lookup_insert_eq. eauto.
  - now rewrite lookup_insert_ne.
Qed.

(** C6.  [start_install_detached] writes the empty text to both capture
    files, then the lock marker, then the wrapper script, and then runs
    the launcher; when it returns the captures are empty, the lock is
    there and the status says running -- and keeps saying so whatever the
    detached job writes, until the job removes its lock, after which the
    status says done. *)
Theorem start_install_detached_running (command : string) (w : world) :
  let w1 := (start_install_detached _INSTALL_DIR sep command w).2 in
  log w1 = log w ++ [ Wrote STDOUT EmptyString; Wrote STDERR EmptyString;
                      Wrote LOCK "running";
                      Wrote SCRIPT (wrapper_script _INSTALL_DIR sep command);
                      Ran (ps_base_args (launch_cmd _INSTALL_DIR sep)) ]
  /\ files w1 !! STDOUT = Some EmptyString
  /\ files w1 !! STDERR = Some EmptyString
  /\ files w1 !! LOCK = Some "running"
  /\ (get_install_status _INSTALL_DIR sep w1).1
     = {| running := true; stdout := EmptyString; stderr := EmptyString; done := false |}
  /\ (forall w2, rtc (job_step _INSTALL_DIR sep) w1 w2 ->
        running (get_install_status _INSTALL_DIR sep w2).1 = true
        /\ running (get_install_status _INSTALL_DIR sep (job_finally _INSTALL_DIR sep w2)).1
           = false
        /\ done (get_install_status _INSTALL_DIR sep (job_finally _INSTALL_DIR sep w2)).1
           = true).
Proof.
  destruct install_paths_distinct as (Hoe & Hol & Hel & Hso & Hse & Hsl).
  intros w1.
  assert (Hout : files w1 !! STDOUT = Some EmptyString).
  { unfold w1. rewrite start_files.
    rewrite lookup_insert_ne, lookup_insert_ne, lookup_insert_ne, lookup_insert_eq; auto. }
  assert (Herr : files w1 !! STDERR = Some EmptyString).
  { unfold w1. rewrite start_files.
    rewrite lookup_insert_ne, lookup_insert_ne, lookup_insert_eq; auto. }
  assert (Hlock : files w1 !! LOCK = Some "running").
  { unfold w1. rewrite start_files. rewrite lookup_insert_ne, lookup_insert_eq; auto. }
  split.
  { unfold w1, start_install_detached, for_io, seq_io, write_text, run, ret. simpl.
    rewrite <- !app_assoc. reflexivity. }
  split; [exact Hout|]. split; [exact Herr|]. split; [exact Hlock|]. split.
  { rewrite status_fields. cbn [fst]. rewrite Hout, Herr, Hlock. reflexivity. }
  intros w2 Hsteps. split; [|split].
  - apply status_running. apply (job_steps_keep_lock _ _ Hsteps). rewrite Hlock. eauto.
  - rewrite status_fields. cbn [fst running job_finally files].
    rewrite lookup_delete_eq. reflexivity.
  - rewrite status_fields. cbn [fst done job_finally files]. rewrite lookup_delete_eq.
    rewrite lookup_delete_ne by auto.
    assert (Hcap : is_Some (files w2 !! STDOUT)).
    { apply (job_steps_keep_stdout _ _ Hsteps). rewrite Hout. eauto. }
    rewrite (bool_decide_eq_true_2 _ Hcap). reflexivity.
Qed.

(** C7, as amended.  [get_install_status] changes nothing; it says
    running exactly when the lock marker exists, done exactly when the lock
    marker is absent and a capture file exists, and gives for stdout and
    stderr the text of the capture file with the white space at both ends
    stripped, or the empty string when the file is absent. *)
Theorem get_install_status_reads (w : world) :
  let st := (get_install_status _INSTALL_DIR sep w).1 in
  (get_install_status _INSTALL_DIR sep w).2 = w
  /\ (running st = true <-> is_Some (files w !! LOCK))
  /\ (done st = true <->
      files w !! LOCK = None
      /\ (is_Some (files w !! STDOUT) \/ is_Some (files w !! STDERR)))
  /\ stdout st = match files w !! STDOUT with
                 | Some text => PyStr.strip text
                 | None => EmptyString
                 end
  /\ stderr st = match files w !! STDERR with
                 | Some text => PyStr.strip text
                 | None => EmptyString
                 end.
Proof.
  intros st. unfold st. rewrite status_fields. cbn [fst snd running done stdout stderr].
  split; [reflexivity|]. split; [apply bool_decide_eq_true|]. split; [|split; reflexivity].
  rewrite andb_true_iff, negb_true_iff, orb_true_iff, bool_decide_eq_false,
    !bool_decide_eq_true, <- eq_None_not_Some. reflexivity.
Qed.

End InstallFacts.

(** A start on the empty slot, followed by the job writing its output. *)
Lemma start_install_detached_running_witness :
  let w1 := (start_install_detached slot_dir "/" "Get-Date" empty_slot).2 in
  let w2 := {| files := <[_INSTALL_STDOUT slot_dir "/" := "today"]> (files w1);
               log := log w1 |} in
  running (get_install_status slot_dir "/" w2).1 = true
  /\ running (get_install_status slot_dir "/" (job_finally slot_dir "/" w2)).1 = false
  /\ done (get_install_status slot_dir "/" (job_finally slot_dir "/" w2)).1 = true.
Proof.
  intros w1 w2.
  apply (proj2 (proj2 (proj2 (proj2 (proj2
    (start_install_detached_running slot_dir "/" "Get-Date" empty_slot))))) w2).
  apply rtc_once. apply job_output.
Defined.

(** C7, as stated, fails: the capture file holds a line with its line
    end, the status gives the line without it. *)
Lemma get_install_status_strips :
  files finished_slot !! _INSTALL_STDOUT slot_dir "/" = Some ("ok" +:+ PyStr.nl)
  /\ stdout (get_install_status slot_dir "/" finished_slot).1 = "ok"
  /\ "ok" <> "ok" +:+ PyStr.nl.
Proof.
  split; [reflexivity|]. split; [|discriminate].
  rewrite status_fields. reflexivity.
Qed.

(** * Further properties *)

(** ** Escaping and the commands built from names *)

Section CommandFacts.

Lemma double_quotes_app (a b : string) :
  double_quotes (a +:+ b) = double_quotes a +:+ double_quotes b.
Proof.
  induction a as [|c a IH]; [reflexivity|].
  rewrite append_String. cbn [double_quotes]. rewrite IH.
  destruct (Ascii.eqb c PyStr.squote); reflexivity.
Qed.

Lemma double_quotes_plain (s : string) :
  double_quotes s = s <-> PyStr.str_count PyStr.squote s = 0.
Proof.
  split.
  - intros H. apply (f_equal String.length) in H.
    rewrite double_quotes_length in H. lia.
  - induction s as [|c s IH]; [reflexivity|].
    cbn [double_quotes PyStr.str_count]. rewrite (Ascii.eqb_sym PyStr.squote c).
    destruct (Ascii.eqb c PyStr.squote); [discriminate|].
    intros H. now rewrite IH.
Qed.

Lemma double_quotes_inj (a b : string) : double_quotes a = double_quotes b -> a = b.
Proof.
  revert b. induction a as [|c a IH]; intros [|d b]; cbn [double_quotes].
  - reflexivity.
  - destruct (Ascii.eqb d PyStr.squote); discriminate.
  - destruct (Ascii.eqb c PyStr.squote); discriminate.
  - destruct (Ascii.eqb_spec c PyStr.squote) as [->|Hc],
      (Ascii.eqb_spec d PyStr.squote) as [->|Hd].
    + intros [= H]. now rewrite (IH b H).
    + intros [= H _]. now destruct Hd.
    + intros [= H _]. now destruct Hc.
    + intros [= -> H]. now rewrite (IH b H).
Qed.

(** X1.  Escaping loses nothing: two names with the same escaped text are
    the same name. *)
Theorem ps_escape_injective (a b : string) :
  ps_escape (Some a) = ps_escape (Some b) -> a = b.
Proof. rewrite !ps_escape_double_quotes. apply double_quotes_inj. Qed.

(** The name [a'b], whose escaped text has the quote twice. *)
Lemma ps_escape_injective_witness :
  ps_escape (Some "a'b") = "a''b" /\ "a'b" = "a'b".
Proof. split; [reflexivity | apply (ps_escape_injective "a'b" "a'b"); reflexivity]. Defined.

(** X2.  Escaping goes through a text piece by piece, and it leaves a
    text as it is exactly when the text has no single quote. *)
Theorem ps_escape_pieces (a b : string) :
  ps_escape (Some (a +:+ b)) = ps_escape (Some a) +:+ ps_escape (Some b)
  /\ (ps_escape (Some a) = a <-> PyStr.str_count PyStr.squote a = 0).
Proof.
  rewrite !ps_escape_double_quotes. cbn [or_empty].
  split; [apply double_quotes_app | apply double_quotes_plain].
Qed.

(** X21.  [ps_escape] writes every apostrophe of a credential twice,
    once; the script is the preamble, built from the escaped credentials,
    followed by the caller's command; and each credential that has no
    typographic quote, whatever apostrophes it has, is read back from the
    script as one single-quoted literal whose value is the credential and
    which ends where the preamble closes it. *)
Theorem ps_escape_single_literal (username password : option string) (command : string) :
  apostrophes_only (or_empty username) -> apostrophes_only (or_empty password) ->
  ps_escape username = double_quotes (or_empty username)
  /\ ps_escape password = double_quotes (or_empty password)
  /\ String.length (ps_escape username)
     = String.length (or_empty username) + PyStr.str_count PyStr.squote (or_empty username)
  /\ String.length (ps_escape password)
     = String.length (or_empty password) + PyStr.str_count PyStr.squote (or_empty password)
  /\ ps_script username password command
     = preamble_head +:+ after_password_quote username password command
  /\ after_password_quote username password command
     = ps_escape password +:+ String PyStr.squote password_literal_end
         +:+ after_username_quote username command
  /\ after_username_quote username command
     = ps_escape username +:+ String PyStr.squote username_literal_end
         +:+ command +:+ PyStr.nl
  /\ read_single_quoted (after_password_quote username password command)
     = Some (or_empty password, password_literal_end +:+ after_username_quote username command)
  /\ read_single_quoted (after_username_quote username command)
     = Some (or_empty username, username_literal_end +:+ command +:+ PyStr.nl).
Proof.
  intros Huser Hpass.
  assert (Hp : after_password_quote username password command
               = ps_escape password +:+ String PyStr.squote password_literal_end
                   +:+ after_username_quote username command).
  { reflexivity. }
  assert (Hu : after_username_quote username command
               = ps_escape username +:+ String PyStr.squote username_literal_end
                   +:+ command +:+ PyStr.nl).
  { reflexivity. }
  split; [apply ps_escape_double_quotes|].
  split; [apply ps_escape_double_quotes|].
  split; [rewrite ps_escape_double_quotes; apply double_quotes_length|].
  split; [rewrite ps_escape_double_quotes; apply double_quotes_length|].
  split; [reflexivity|].
  split; [exact Hp|].
  split; [exact Hu|].
  split.
  - rewrite Hp. apply (read_escaped_literal password
      (password_literal_end +:+ after_username_quote username command) Hpass).
    reflexivity.
  - rewrite Hu. apply (read_escaped_literal username
      (username_literal_end +:+ command +:+ PyStr.nl) Huser).
    reflexivity.
Qed.

(** The user [o'neil] with the password [p'w]. *)
Lemma ps_escape_single_literal_witness :
  ps_escape (Some "p'w") = "p''w"
  /\ read_single_quoted (after_password_quote (Some "o'neil") (Some "p'w") "Get-Five9List")
     = Some ("p'w",
             password_literal_end +:+ after_username_quote (Some "o'neil") "Get-Five9List")
  /\ read_single_quoted (after_username_quote (Some "o'neil") "Get-Five9List")
     = Some ("o'neil", username_literal_end +:+ "Get-Five9List" +:+ PyStr.nl).
Proof.
  destruct (ps_escape_single_literal (Some "o'neil") (Some "p'w") "Get-Five9List")
    as (_ & _ & _ & _ & _ & _ & _ & Hp & Hu).
  - repeat split.
  - repeat split.
  - split; [reflexivity|]. split; [exact Hp | exact Hu].
Defined.

Lemma quoted_item_app (c rest : string) :
  ("'" +:+ ps_escape (Some c) +:+ "'") +:+ rest
  = String PyStr.squote (ps_escape (Some c) +:+ String PyStr.squote rest).
Proof.
  change ("'" +:+ ps_escape (Some c) +:+ "'")
    with (String PyStr.squote (ps_escape (Some c) +:+ "'")).
  rewrite append_String, app_assoc_str. reflexivity.
Qed.

Lemma quoted_list_cons (c : string) (names : list string) (rest : string) :
  names <> [] ->
  quoted_list (c :: names) +:+ rest
  = String PyStr.squote
      (ps_escape (Some c) +:+ String PyStr.squote (", " +:+ quoted_list names +:+ rest)).
Proof.
  intros Hne. destruct names as [|d names]; [contradiction|].
  unfold quoted_list. cbn [map].
  change (PyStr.join ", " (?x :: ?y :: ?l)) with (x +:+ ", " +:+ PyStr.join ", " (y :: l)).
  generalize (PyStr.join ", "
                (("'" +:+ ps_escape (Some d) +:+ "'")
                 :: map (fun c0 => "'" +:+ ps_escape (Some c0) +:+ "'") names)).
  intros J. rewrite !app_assoc_str. reflexivity.
Qed.

Lemma quoted_list_starts (c : string) (names : list string) (rest : string) :
  exists body, quoted_list (c :: names) +:+ rest = String PyStr.squote body.
Proof.
  destruct names as [|d names].
  - unfold quoted_list. cbn [map PyStr.join]. rewrite quoted_item_app. eauto.
  - rewrite quoted_list_cons by discriminate. eauto.
Qed.

Lemma no_quote_ahead_comma (s : string) : no_quote_ahead (", " +:+ s).
Proof.
  unfold no_quote_ahead. change (", " +:+ s) with (String "," (String " " s)).
  cbn [quote_width]. change (Ascii.eqb "," PyStr.squote) with false. cbn iota.
  now rewrite typographic_second by discriminate.
Qed.

(** The items of the array are the names, whatever apostrophes they
    have. *)
Lemma read_items_quoted (names : list string) (fuel : nat) (rest : string) :
  Forall apostrophes_only names ->
  length names < fuel -> no_item_ahead rest ->
  read_items fuel (quoted_list names +:+ rest) = Some (names, rest).
Proof.
  intros Hnames Hf [Hq Hi]. revert fuel Hf.
  induction Hnames as [|c names Hc Hnames IH]; intros [|fuel] Hf; try (simpl in Hf; lia).
  - unfold quoted_list. cbn [map PyStr.join]. change (EmptyString +:+ rest) with rest.
    cbn [read_items]. now rewrite Hq.
  - destruct names as [|d names].
    + unfold quoted_list. cbn [map PyStr.join]. rewrite quoted_item_app.
      cbn [read_items quote_width]. rewrite Ascii.eqb_refl. cbn [str_drop].
      rewrite (read_escaped_literal (Some c) _ Hc Hq).
      destruct (Json.strip_prefix ", " rest) as [next|]; [|reflexivity].
      now rewrite Hi.
    + rewrite quoted_list_cons by discriminate.
      cbn [read_items quote_width]. rewrite Ascii.eqb_refl. cbn [str_drop].
      rewrite (read_escaped_literal (Some c)) by (exact Hc || apply no_quote_ahead_comma).
      change (Json.strip_prefix ", " (", " +:+ quoted_list (d :: names) +:+ rest))
        with (Some (quoted_list (d :: names) +:+ rest)).
      destruct (quoted_list_starts d names rest) as [body Hb].
      specialize (IH fuel ltac:(simpl in *; lia)). rewrite Hb in IH |- *.
      cbn [quote_width]. rewrite Ascii.eqb_refl, IH. reflexivity.
Qed.

Lemma quoted_list_length (names : list string) (rest : string) :
  length names <= String.length (quoted_list names +:+ rest).
Proof.
  induction names as [|c names IH]; [simpl; lia|].
  destruct names as [|d names].
  - unfold quoted_list. cbn [map PyStr.join]. rewrite quoted_item_app. simpl. lia.
  - rewrite quoted_list_cons by discriminate. cbn [String.length].
    rewrite length_app. cbn [String.length].
    change (", " +:+ quoted_list (d :: names) +:+ rest)
      with (String "," (String " " (quoted_list (d :: names) +:+ rest))).
    cbn [String.length length] in *. lia.
Qed.

Lemma read_quoted_list_round_trip (names : list string) (rest : string) :
  Forall apostrophes_only names -> no_item_ahead rest ->
  read_quoted_list (quoted_list names +:+ rest) = Some (names, rest).
Proof.
  intros Hnames H. unfold read_quoted_list. apply read_items_quoted; [exact Hnames| |exact H].
  pose proof (quoted_list_length names rest). lia.
Qed.

Lemma no_item_ahead_paren (rest : string) : no_item_ahead (String ")" rest).
Proof.
  split.
  - unfold no_quote_ahead. cbn [quote_width].
    change (Ascii.eqb ")" PyStr.squote) with false. cbn iota.
    destruct rest as [|b2 [|b3 rest]]; reflexivity.
  - reflexivity.
Qed.

(** X3.  The script of the state page starts with the array of the
    selected campaigns, which reads back as exactly the selected names,
    whatever apostrophes, commas or spaces they have, when no name has a
    typographic quote; the rest of the script runs the stop command when
    the choice is ["Running"] and the start command on any other
    choice. *)
Theorem campaign_script_names (status_choice : string) (selected_campaigns : list string) :
  Forall apostrophes_only selected_campaigns ->
  exists items,
    campaign_script status_choice selected_campaigns
    = PyStr.nl +:+ "$campaigns = @(" +:+ items
    /\ read_quoted_list items
       = Some (selected_campaigns, campaign_script_tail (action_cmd status_choice))
    /\ (action_cmd status_choice = "Stop-Five9Campaign -Force $true"
        <-> status_choice = "Running")
    /\ (action_cmd status_choice = "Start-Five9Campaign" <-> status_choice <> "Running").
Proof.
  intros Hnames.
  exists (quoted_list selected_campaigns +:+ campaign_script_tail (action_cmd status_choice)).
  split; [reflexivity|]. split.
  - apply read_quoted_list_round_trip; [exact Hnames | apply no_item_ahead_paren].
  - unfold action_cmd. destruct (String.eqb_spec status_choice "Running") as [He|Hne].
    + split; split; intros H; try reflexivity; try assumption; try discriminate H.
      now destruct H.
    + split; split; intros H; try reflexivity; try assumption; try discriminate H.
      now destruct Hne.
Qed.

(** The names [O'Hara, Inc.] and [Sales]. *)
Lemma campaign_script_names_witness :
  exists items,
    campaign_script "Running" ["O'Hara, Inc."; "Sales"]
    = PyStr.nl +:+ "$campaigns = @(" +:+ items
    /\ read_quoted_list items
       = Some (["O'Hara, Inc."; "Sales"], campaign_script_tail (action_cmd "Running"))
    /\ (action_cmd "Running" = "Stop-Five9Campaign -Force $true" <-> "Running" = "Running")
    /\ (action_cmd "Running" = "Start-Five9Campaign" <-> "Running" <> "Running").
Proof.
  apply (campaign_script_names "Running" ["O'Hara, Inc."; "Sales"]).
  repeat constructor.
Defined.

(** X4.  The add and remove scripts start with the array of the lists
    and then the array of the campaigns; both read back as exactly the
    names given, when no name has a typographic quote. *)
Theorem list_script_names (cmdlet : string) (lists campaigns : list string) :
  Forall apostrophes_only lists -> Forall apostrophes_only campaigns ->
  exists items items',
    list_script cmdlet lists campaigns = PyStr.nl +:+ "$lists = @(" +:+ items
    /\ read_quoted_list items
       = Some (lists, ");" +:+ PyStr.nl +:+ "$campaigns = @(" +:+ items')
    /\ read_quoted_list items' = Some (campaigns, list_script_tail cmdlet).
Proof.
  intros Hlists Hcampaigns.
  exists (quoted_list lists +:+ ");" +:+ PyStr.nl +:+ "$campaigns = @("
            +:+ quoted_list campaigns +:+ list_script_tail cmdlet),
         (quoted_list campaigns +:+ list_script_tail cmdlet).
  split; [reflexivity|]. split.
  - apply read_quoted_list_round_trip; [exact Hlists | apply no_item_ahead_paren].
  - apply read_quoted_list_round_trip; [exact Hcampaigns | apply no_item_ahead_paren].
Qed.

(** The list [Leads 'A'] and the campaigns [North] and [South]. *)
Lemma list_script_names_witness :
  exists items items',
    list_script "Add-Five9CampaignList" ["Leads 'A'"] ["North"; "South"]
    = PyStr.nl +:+ "$lists = @(" +:+ items
    /\ read_quoted_list items
       = Some (["Leads 'A'"], ");" +:+ PyStr.nl +:+ "$campaigns = @(" +:+ items')
    /\ read_quoted_list items'
       = Some (["North"; "South"], list_script_tail "Add-Five9CampaignList").
Proof.
  apply (list_script_names "Add-Five9CampaignList" ["Leads 'A'"] ["North"; "South"]);
    repeat constructor.
Defined.

End CommandFacts.

(** ** The campaign table and the state page *)

Section CampaignPageFacts.
Implicit Types (rec : record) (records : list record).

Lemma campaign_hashable_dec rec : campaign_hashable rec \/ ~ campaign_hashable rec.
Proof.
  unfold campaign_hashable.
  destruct (hashable (campaign_field rec "state")), (hashable (campaign_field rec "type"));
    intuition discriminate.
Qed.

Lemma normalize_campaign_unhashable rec :
  ~ campaign_hashable rec -> normalize_campaign rec = Raises TypeError.
Proof.
  intros H. destruct (hashable (campaign_field rec "state")) eqn:Hs.
  - destruct (hashable (campaign_field rec "type")) eqn:Ht.
    + destruct H. now split.
    + unfold normalize_campaign, Dict.get_none, Dict.get_or.
      rewrite !lower_keys_get.
      fold (campaign_field rec "state") (campaign_field rec "type").
      rewrite (int_map_get_hashable _ _ Hs), (int_map_get_unhashable _ _ _ Ht). reflexivity.
  - now apply normalize_campaign_unhashable_state.
Qed.

Lemma for_each_normalize_raises records :
  Exists (fun rec => ~ campaign_hashable rec) records ->
  for_each normalize_campaign records = Raises TypeError.
Proof.
  induction records as [|rec records IH]; intros H; [now apply Exists_nil in H|].
  cbn [for_each]. destruct (campaign_hashable_dec rec) as [Hrec|Hrec].
  - rewrite (normalize_campaign_hashable _ Hrec). cbn [bind].
    apply Exists_cons in H as [H|H]; [contradiction|]. now rewrite IH.
  - now rewrite (normalize_campaign_unhashable _ Hrec).
Qed.

(** X5.  [parse_campaigns_json] has two outcomes only: when the state and
    type of every record can be hashed, the table with one row per record,
    in the order of the records; otherwise [TypeError], and no table at
    all, even for the records before and after the offending one. *)
Theorem parse_campaigns_json_outcome records :
  (Forall campaign_hashable records
   /\ parse_campaigns_json records = Returns (campaign_frame records)
   /\ length (rows (campaign_frame records)) = length records)
  \/ (Exists (fun rec => ~ campaign_hashable rec) records
      /\ parse_campaigns_json records = Raises TypeError).
Proof.
  assert (Hdec : Forall campaign_hashable records
                 \/ Exists (fun rec => ~ campaign_hashable rec) records).
  { induction records as [|rec records IH]; [left; constructor|].
    destruct (campaign_hashable_dec rec) as [Hrec|Hrec]; [|right; now left].
    destruct IH as [IH|IH]; [left; now constructor | right; now right]. }
  destruct Hdec as [H|H]; [left|right].
  - split; [exact H|]. split; [now apply parse_campaigns_json_hashable|].
    unfold campaign_frame. cbn [rows]. apply length_map.
  - split; [exact H|]. unfold parse_campaigns_json.
    now rewrite (for_each_normalize_raises _ H).
Qed.

Lemma lower_keys_rename (f : string -> string) rec :
  (forall k, PyStr.lower (f k) = PyStr.lower k) ->
  lower_keys (rename_keys f rec) = lower_keys rec.
Proof.
  intros Hf. unfold lower_keys, rename_keys. rewrite map_map. f_equal.
  apply map_ext. intros [k v]. cbn [fst snd]. now rewrite Hf.
Qed.

Lemma normalize_campaign_rename (f : string -> string) rec :
  (forall k, PyStr.lower (f k) = PyStr.lower k) ->
  normalize_campaign (rename_keys f rec) = normalize_campaign rec.
Proof. intros Hf. unfold normalize_campaign. now rewrite (lower_keys_rename _ _ Hf). Qed.

(** X6.  The table does not depend on the casing of the keys: renaming
    the keys of the records in a way that keeps their lowered form changes
    nothing, whether the result is a table or an error. *)
Theorem parse_campaigns_json_any_casing (f : string -> string) records :
  (forall k, PyStr.lower (f k) = PyStr.lower k) ->
  parse_campaigns_json (map (rename_keys f) records) = parse_campaigns_json records.
Proof.
  intros Hf. unfold parse_campaigns_json. f_equal.
  induction records as [|rec records IH]; [reflexivity|].
  cbn [map for_each]. now rewrite (normalize_campaign_rename _ _ Hf), IH.
Qed.

Lemma lower_char_idempotent (c : ascii) :
  PyStr.lower_char (PyStr.lower_char c) = PyStr.lower_char c.
Proof. destruct c as [[] [] [] [] [] [] [] []]; reflexivity. Qed.

Lemma lower_idempotent (s : string) : PyStr.lower (PyStr.lower s) = PyStr.lower s.
Proof.
  unfold PyStr.lower. induction s as [|c s IH]; [reflexivity|].
  cbn [PyStr.str_map]. now rewrite lower_char_idempotent, IH.
Qed.

(** The keys of [{"NAME": "X", "State": 2}] in lower case. *)
Lemma parse_campaigns_json_any_casing_witness :
  parse_campaigns_json [[("name", VStr "X"); ("state", VInt 2)]]
  = parse_campaigns_json [[("NAME", VStr "X"); ("State", VInt 2)]].
Proof.
  exact (parse_campaigns_json_any_casing PyStr.lower
           [[("NAME", VStr "X"); ("State", VInt 2)]] lower_idempotent).
Defined.

Lemma getitem_campaign_frame records (i : nat) (label : string) :
  records <> [] ->
  position label ["Name"; "State"; "Type"] = Some i ->
  getitem (campaign_frame records) label
  = Returns (map (fun rec => cell i (campaign_cells rec)) records).
Proof.
  intros Hne Hpos. unfold getitem, campaign_frame. cbn [columns rows].
  destruct records as [|rec records]; [contradiction|]. rewrite Hpos, map_map. reflexivity.
Qed.

(** X7.  The column of names of the fetched table is there only when a
    record was fetched: for no record the table has no column at all, so
    reading ["Name"] from it raises [KeyError], although the table the
    session starts with has that column. *)
Theorem campaign_names_column records :
  Forall campaign_hashable records ->
  (df <- parse_campaigns_json records ;; getitem df "Name")%py
  = match records with
    | [] => Raises KeyError
    | _ => Returns (map campaign_name records)
    end
  /\ (forall v, Dict.get get_default_state "campaigns_df" = Some v ->
        exists df, v = SFrame df /\ getitem df "Name" = Returns []).
Proof.
  intros H. split.
  - rewrite (parse_campaigns_json_hashable _ H). cbn [bind].
    destruct records as [|rec records]; [reflexivity|].
    now rewrite (getitem_campaign_frame _ 0 "Name").
  - intros v [= <-]. eexists. split; reflexivity.
Qed.

Lemma campaign_names_column_witness :
  (df <- parse_campaigns_json [] ;; getitem df "Name")%py = Raises KeyError
  /\ (df <- parse_campaigns_json [[("name", VStr "A")]] ;; getitem df "Name")%py
     = Returns [VStr "A"].
Proof.
  split.
  - exact (proj1 (campaign_names_column [] (List.Forall_nil _))).
  - refine (proj1 (campaign_names_column [[("name", VStr "A")]] _)).
    repeat constructor.
Defined.

Lemma keep_map {A B : Type} (f : A -> B) (g : A -> bool) (l : list A) :
  keep (map g l) (map f l) = map f (List.filter g l).
Proof.
  induction l as [|x l IH]; [reflexivity|]. cbn [map keep List.filter].
  destruct (g x); cbn [map]; now rewrite IH.
Qed.

Lemma map_keep {A B : Type} (f : A -> B) (mask : list bool) (l : list A) :
  map f (keep mask l) = keep mask (map f l).
Proof.
  revert l. induction mask as [|b mask IH]; intros [|x l]; try reflexivity.
  cbn [keep map]. destruct b; cbn [map]; now rewrite IH.
Qed.

Lemma getitem_filtered_names records (mask : list bool) :
  records <> [] ->
  getitem (boolean_filter (campaign_frame records) mask) "Name"
  = Returns (keep mask (map campaign_name records)).
Proof.
  intros Hne. destruct records as [|rec records]; [contradiction|].
  unfold getitem, boolean_filter, campaign_frame. cbn [columns rows position String.eqb].
  cbn. rewrite map_keep. cbn [map]. rewrite map_map. reflexivity.
Qed.

Lemma running_mask_frame records :
  records <> [] ->
  running_mask (campaign_frame records) = Returns (map campaign_runs records).
Proof.
  intros Hne. unfold running_mask.
  rewrite (getitem_campaign_frame _ 1 "State") by (assumption || reflexivity).
  cbn [bind]. destruct records as [|rec records]; [contradiction|].
  cbn [map existsb]. change (is_str (cell 1 (campaign_cells rec))) with true.
  cbn [orb]. now rewrite map_map.
Qed.

Lemma campaign_options_frame records (status_choice : string) :
  records <> [] ->
  campaign_options (campaign_frame records) status_choice
  = Returns (map campaign_name
               (List.filter (fun rec => if String.eqb status_choice "Running"
                                        then campaign_runs rec
                                        else negb (campaign_runs rec)) records)).
Proof.
  intros Hne. unfold campaign_options, filtered_df.
  rewrite running_mask_frame by assumption.
  cbn [bind]. rewrite getitem_filtered_names by assumption.
  destruct (String.eqb status_choice "Running").
  - now rewrite keep_map.
  - now rewrite map_map, keep_map.
Qed.

Lemma of_Z_not_running (n : Z) : is_running (VStr (PyStr.of_Z n)) = true -> False.
Proof.
  unfold is_running, PyStr.of_Z.
  destruct (Z.to_int n) as [[]|[]]; discriminate.
Qed.

Lemma filter_negb_partition {A : Type} (g : A -> bool) (l : list A) :
  Permutation (List.filter g l ++ List.filter (fun x => negb (g x)) l) l.
Proof.
  induction l as [|x l IH]; [reflexivity|]. cbn [List.filter].
  destruct (g x); cbn [negb app].
  - now constructor.
  - rewrite <- Permutation_middle. now constructor.
Qed.

(** X8.  On the state page the campaigns fetched are split in two: under
    ["Running"] the names of the rows whose state reads as running in any
    casing, under any other choice the names of all the other rows; every
    row is under exactly one of the two, and a row from a numeric state is
    under ["Running"] exactly for the state 2. *)
Theorem campaign_options_split records :
  records <> [] -> Forall campaign_hashable records ->
  offered records "Running"
  = Returns (map campaign_name (List.filter campaign_runs records))
  /\ (forall status_choice, status_choice <> "Running" ->
        offered records status_choice
        = Returns (map campaign_name
                     (List.filter (fun rec => negb (campaign_runs rec)) records)))
  /\ Permutation
       (map campaign_name (List.filter campaign_runs records)
          ++ map campaign_name (List.filter (fun rec => negb (campaign_runs rec)) records))
       (map campaign_name records)
  /\ (forall rec (n : Z), campaign_field rec "state" = VInt n ->
        (campaign_runs rec = true <-> n = 2%Z)).
Proof.
  intros Hne H. unfold offered. rewrite (parse_campaigns_json_hashable _ H). cbn [bind].
  split; [|split; [|split]].
  - now rewrite campaign_options_frame.
  - intros choice Hc. rewrite campaign_options_frame by assumption.
    now destruct (String.eqb_spec choice "Running").
  - rewrite <- map_app. apply Permutation_map, filter_negb_partition.
  - intros rec n Hn. unfold campaign_runs. rewrite Hn, label_of_state_int.
    destruct (Z.eqb_spec n 0) as [->|?]; [split; [discriminate | lia]|].
    destruct (Z.eqb_spec n 1) as [->|?]; [split; [discriminate | lia]|].
    destruct (Z.eqb_spec n 2) as [->|?]; [split; [reflexivity | reflexivity]|].
    destruct (Z.eqb_spec n 3) as [->|?]; [split; [discriminate | lia]|].
    split; [|lia]. intros Hrun. exfalso. revert Hrun. apply of_Z_not_running.
Qed.

End CampaignPageFacts.

(** Two campaigns, one running (state 2) and one not (state 0). *)
Lemma campaign_options_split_witness :
  offered [ [("name", VStr "A"); ("state", VInt 2)];
            [("name", VStr "B"); ("state", VInt 0)] ] "Running"
  = Returns [VStr "A"]
  /\ offered [ [("name", VStr "A"); ("state", VInt 2)];
               [("name", VStr "B"); ("state", VInt 0)] ] "Not Running"
     = Returns [VStr "B"].
Proof.
  destruct (campaign_options_split
              [ [("name", VStr "A"); ("state", VInt 2)];
                [("name", VStr "B"); ("state", VInt 0)] ]) as (Hrun & Hother & _).
  - discriminate.
  - repeat constructor.
  - split; [exact Hrun | apply Hother; discriminate].
Defined.

(** ** Contact lists without a name column *)

Section MoreParserFacts.
Implicit Types (rec : record) (records : list record).

Lemma position_absent (k : string) (labels : list string) :
  k ∉ labels -> position k labels = None.
Proof.
  induction labels as [|k0 labels IH]; [reflexivity|].
  rewrite not_elem_of_cons. intros [Hne Hk]. cbn [position].
  destruct (String.eqb_spec k0 k); [congruence|]. now rewrite IH.
Qed.

(** X9.  The key ["name"] of the contact lists is read as written: when
    no record has it, and some record has a key at all, sorting raises
    [KeyError] -- also when the records have the key in another casing. *)
Theorem parse_domain_lists_json_needs_name records :
  Forall (fun rec => "name" ∉ Dict.keys rec) records ->
  Exists (fun rec => Dict.keys rec <> []) records ->
  parse_domain_lists_json records = Raises KeyError.
Proof.
  intros Hno Hkey.
  assert (Hnotin : "name" ∉ union_keys records).
  { unfold union_keys. rewrite union_keys_fold_elem. intros [H|(rec & Hrec & Hk)].
    - now apply elem_of_nil in H.
    - rewrite List.Forall_forall in Hno. apply (Hno rec); [now apply list_elem_of_In|exact Hk]. }
  assert (Hsome : union_keys records <> []).
  { apply List.Exists_exists in Hkey as (rec & Hrec & Hk).
    destruct (Dict.keys rec) as [|k ks] eqn:E; [contradiction|].
    assert (Hin : k ∈ union_keys records).
    { unfold union_keys. apply union_keys_fold_elem. right. exists rec.
      split; [now apply list_elem_of_In|]. rewrite E. left. }
    intros Heq. rewrite Heq in Hin. now apply elem_of_nil in Hin. }
  assert (Hrecords : records <> []).
  { intros ->. now apply Exists_nil in Hkey. }
  unfold parse_domain_lists_json, from_records.
  destruct (union_keys records) as [|k labels] eqn:E; [contradiction|].
  destruct records as [|rec records]; [contradiction|].
  cbn [empty columns index length seq]. unfold sort_values. cbn [columns].
  now rewrite (position_absent _ _ Hnotin).
Qed.

(** The record [{"Name": "A", "size": 1}]. *)
Lemma parse_domain_lists_json_needs_name_witness :
  parse_domain_lists_json [[("Name", VStr "A"); ("size", VInt 1)]] = Raises KeyError.
Proof.
  apply parse_domain_lists_json_needs_name.
  - constructor; [|constructor]. intros H. apply list_elem_of_In in H. simpl in H.
    repeat (destruct H as [H|H]; [discriminate H|]). exact H.
  - left. discriminate.
Defined.

(** ** Batches of action results: both sides, and the counts *)

Lemma last_None {A : Type} (l : list A) : last l = None <-> l = [].
Proof.
  destruct l as [|x l]; [tauto|]. split; [|discriminate].
  revert x. induction l as [|y l IH]; intros x; [discriminate|].
  rewrite last_cons_cons. intros H. now apply IH in H.
Qed.

Lemma failed_name_iff records (name : string) :
  name ∈ Dict.keys (parse_action_results records).2
  <-> exists rec, rec ∈ records /\ action_succeeded rec = false /\ action_name rec = name.
Proof.
  assert (Hget : Dict.get (parse_action_results records).2 name = last_error name records).
  { unfold parse_action_results. rewrite failures_fold. simpl.
    now destruct (last_error name records). }
  split.
  - intros Hin. destruct (last_error name records) as [e|] eqn:E.
    + unfold last_error in E.
      destruct (List.filter (failed_as name) records) as [|rec l] eqn:Ef; [discriminate|].
      assert (Hrec : rec ∈ List.filter (failed_as name) records) by (rewrite Ef; left).
      apply elem_of_filter_bool in Hrec as [Hrec Hf]. unfold failed_as in Hf.
      apply andb_true_iff in Hf as [Hs Hn]. apply negb_true_iff in Hs.
      apply String.eqb_eq in Hn. eauto.
    + apply dict_get_None in Hget. contradiction.
  - intros (rec & Hrec & Hs & Hn).
    destruct (decide (name ∈ Dict.keys (parse_action_results records).2)) as [|Hnot];
      [assumption|].
    apply dict_get_None in Hnot. rewrite Hget in Hnot. unfold last_error in Hnot.
    apply last_None, map_eq_nil in Hnot.
    assert (Hin : rec ∈ List.filter (failed_as name) records).
    { apply elem_of_filter_bool. split; [assumption|]. unfold failed_as.
      now rewrite Hs, Hn, String.eqb_refl. }
    rewrite Hnot in Hin. now apply elem_of_nil in Hin.
Qed.

Lemma succeeded_name_iff records (name : string) :
  name ∈ (parse_action_results records).1
  <-> exists rec, rec ∈ records /\ action_succeeded rec = true /\ action_name rec = name.
Proof.
  unfold parse_action_results. rewrite successes_fold, add_name_fold. simpl.
  rewrite filter_all, first_occurrences_elem, list_elem_of_fmap. split.
  - intros (rec & -> & Hrec). apply elem_of_filter_bool in Hrec. exists rec. tauto.
  - intros (rec & Hrec & Hok & <-). exists rec. split; [reflexivity|].
    apply elem_of_filter_bool. tauto.
Qed.

(** X10.  A name is reported on both sides, as succeeded and as failed,
    exactly when the batch has a record that succeeded and a record that
    failed under it: a failure does not take back a success, nor a success
    a failure. *)
Theorem parse_action_results_both_sides records (name : string) :
  (name ∈ (parse_action_results records).1
   /\ name ∈ Dict.keys (parse_action_results records).2)
  <-> (exists rec, rec ∈ records /\ action_succeeded rec = true /\ action_name rec = name)
      /\ (exists rec, rec ∈ records /\ action_succeeded rec = false
                      /\ action_name rec = name).
Proof.
  split.
  - intros [Hs Hf]. split; [now apply succeeded_name_iff | now apply failed_name_iff].
  - intros [Hs Hf]. split; [now apply succeeded_name_iff | now apply failed_name_iff].
Qed.

Lemma first_occurrences_length (l : list string) :
  length (first_occurrences l) <= length l.
Proof.
  induction l as [|x l IH]; [reflexivity|]. cbn [first_occurrences length].
  pose proof (List.filter_length_le (fun y => negb (String.eqb x y)) (first_occurrences l)).
  lia.
Qed.

Lemma filter_other_id (x : string) (l : list string) :
  x ∉ l -> List.filter (fun y => negb (String.eqb x y)) l = l.
Proof.
  induction l as [|y l IH]; [reflexivity|].
  rewrite not_elem_of_cons. intros [Hne Hx]. cbn [List.filter].
  destruct (String.eqb_spec x y); [contradiction|]. cbn [negb]. now rewrite IH.
Qed.

Lemma first_occurrences_NoDup_id (l : list string) : NoDup l -> first_occurrences l = l.
Proof.
  induction 1 as [|x l Hx Hl IH]; [reflexivity|]. cbn [first_occurrences].
  now rewrite IH, filter_other_id.
Qed.

Lemma dict_set_length {A : Type} (d : pydict A) (k : string) (v : A) :
  length (Dict.set d k v) = if Py.str_in k (Dict.keys d) then length d else S (length d).
Proof.
  rewrite <- (List.length_map fst (Dict.set d k v)).
  change (map fst (Dict.set d k v)) with (Dict.keys (Dict.set d k v)).
  rewrite dict_keys_set. unfold Dict.keys.
  destruct (Py.str_in k (map fst d)); [apply List.length_map|].
  rewrite List.length_app, List.length_map. simpl. lia.
Qed.

Lemma failures_length records (successes : list string) (failures : pydict string) :
  length (fold_left action_step records (successes, failures)).2
  <= length failures + failed_count records
  /\ (NoDup (map action_name records) ->
      Forall (fun rec => action_name rec ∉ Dict.keys failures) records ->
      length (fold_left action_step records (successes, failures)).2
      = length failures + failed_count records).
Proof.
  unfold failed_count. revert successes failures.
  induction records as [|rec records IH]; intros S F; [simpl; split; intros; lia|].
  cbn [fold_left List.filter map]. unfold action_step at 2 4.
  destruct (action_succeeded rec) eqn:Hs; cbn [negb].
  - destruct (IH (if negb (Py.str_in (action_name rec) S) then S ++ [action_name rec] else S) F)
      as [Hle Heq].
    split; [exact Hle|]. intros Hnd Hall. apply NoDup_cons in Hnd as [_ Hnd].
    apply Forall_cons in Hall as [_ Hall]. now apply Heq.
  - destruct (IH S (Dict.set F (action_name rec) (action_error rec))) as [Hle Heq].
    pose proof (dict_set_length F (action_name rec) (action_error rec)) as Hlen.
    cbn [length]. split.
    + destruct (Py.str_in (action_name rec) (Dict.keys F)); lia.
    + intros Hnd Hall. apply NoDup_cons in Hnd as [Hrec Hnd].
      apply Forall_cons in Hall as [Hnew Hall].
      rewrite Heq; [| assumption |].
      * destruct (Py.str_in (action_name rec) (Dict.keys F)) eqn:E; [|lia].
        apply str_in_spec in E. contradiction.
      * apply Forall_forall. intros r Hr. rewrite dict_keys_set.
        rewrite List.Forall_forall in Hall.
        assert (Hne : action_name r <> action_name rec).
        { intros Heq'. apply Hrec. rewrite <- Heq'. apply list_elem_of_fmap. eauto. }
        destruct (Py.str_in (action_name rec) (Dict.keys F)).
        -- apply Hall. now apply list_elem_of_In.
        -- rewrite not_elem_of_app, list_elem_of_singleton. split; [|assumption].
           apply Hall. now apply list_elem_of_In.
Qed.

(** X11.  The two counts a page shows never exceed the attempts: the
    success list is no longer than the number of records that succeeded,
    the failure map no larger than the number that failed; when all the
    records have different names, both counts are exact. *)
Theorem parse_action_results_counts records :
  length (parse_action_results records).1 <= succeeded_count records
  /\ length (parse_action_results records).2 <= failed_count records
  /\ (NoDup (map action_name records) ->
      length (parse_action_results records).1 = succeeded_count records
      /\ length (parse_action_results records).2 = failed_count records).
Proof.
  assert (Hs : (parse_action_results records).1
               = first_occurrences (map action_name (List.filter action_succeeded records))).
  { unfold parse_action_results. rewrite successes_fold, add_name_fold. simpl.
    apply filter_all. }
  destruct (failures_length records [] []) as [Hle Heq].
  unfold succeeded_count. split; [|split].
  - rewrite Hs. etransitivity; [apply first_occurrences_length|]. now rewrite List.length_map.
  - exact Hle.
  - intros Hnd. split.
    + rewrite Hs, first_occurrences_NoDup_id; [apply List.length_map|].
      clear -Hnd. induction records as [|rec records IH]; [constructor|].
      cbn [map] in Hnd. apply NoDup_cons in Hnd as [Hrec Hnd]. cbn [List.filter].
      destruct (action_succeeded rec); [|now apply IH]. cbn [map].
      constructor; [|now apply IH]. intros Hin. apply Hrec.
      apply list_elem_of_fmap in Hin as (r & Hr & Hin).
      apply elem_of_filter_bool in Hin as [Hin _]. apply list_elem_of_fmap. eauto.
    + apply Heq; [assumption|]. apply Forall_forall. intros r _. apply not_elem_of_nil.
Qed.

(** A batch of two records with different names, one of each kind. *)
Lemma parse_action_results_counts_witness :
  length (parse_action_results
            [ [("Identifier", VStr "a"); ("Success", VBool true)];
              [("Identifier", VStr "b")] ]).1 = 1
  /\ length (parse_action_results
               [ [("Identifier", VStr "a"); ("Success", VBool true)];
                 [("Identifier", VStr "b")] ]).2 = 1.
Proof.
  refine (proj2 (proj2 (parse_action_results_counts
    [ [("Identifier", VStr "a"); ("Success", VBool true)]; [("Identifier", VStr "b")] ])) _).
  repeat constructor; intros H; apply list_elem_of_In in H; simpl in H;
    repeat (destruct H as [H|H]; [discriminate H|]); exact H.
Defined.

End MoreParserFacts.

(** ** Arrays of strings through the decoder *)

Section StringArrayFacts.
Variables recursion_limit int_max_str_digits : nat.
Variable float_of : string -> string.

Lemma scanstring_plain (s rest : string) :
  all_chars plain_char s ->
  Json.scanstring (s +:+ String PyStr.dquote rest) = Returns (s, rest).
Proof.
  induction s as [|c s IH]; intros Hs.
  - change (EmptyString +:+ String PyStr.dquote rest) with (String PyStr.dquote rest).
    cbn [Json.scanstring]. now rewrite Ascii.eqb_refl.
  - destruct Hs as [(Hq & Hb & Hc) Hs]. rewrite append_String. cbn [Json.scanstring].
    apply Ascii.eqb_neq in Hq, Hb. rewrite Hq, Hb.
    apply Nat.ltb_ge in Hc. rewrite Hc. now rewrite (IH Hs).
Qed.

Lemma json_string_app (s rest : string) :
  json_string s +:+ rest = String PyStr.dquote (s +:+ String PyStr.dquote rest).
Proof. unfold json_string. now rewrite append_String, app_assoc_str. Qed.

Lemma scan_once_string (fuel depth : nat) (s rest : string) :
  all_chars plain_char s ->
  Json.scan_once int_max_str_digits float_of (S fuel) depth (json_string s +:+ rest)
  = Returns (VStr s, rest).
Proof.
  intros Hs. rewrite json_string_app. cbn [Json.scan_once].
  rewrite Ascii.eqb_refl, (scanstring_plain _ _ Hs). reflexivity.
Qed.

Lemma json_items_cons (s t : string) (items : list string) (rest : string) :
  PyStr.join ", " (map json_string (s :: t :: items)) +:+ rest
  = json_string s
      +:+ String "," (String " " (PyStr.join ", " (map json_string (t :: items)) +:+ rest)).
Proof.
  cbn [map].
  change (PyStr.join ", " (?x :: ?y :: ?l)) with (x +:+ ", " +:+ PyStr.join ", " (y :: l)).
  generalize (PyStr.join ", " (json_string t :: map json_string items)). intros J.
  now rewrite !app_assoc_str.
Qed.

Lemma json_items_start (s : string) (items : list string) (rest : string) :
  exists body,
    PyStr.join ", " (map json_string (s :: items)) +:+ rest = String PyStr.dquote body.
Proof.
  destruct items as [|t items].
  - cbn [map PyStr.join]. rewrite json_string_app. eauto.
  - rewrite json_items_cons, json_string_app. eauto.
Qed.

Lemma json_items_length (items : list string) (rest : string) :
  length items <= String.length (PyStr.join ", " (map json_string items) +:+ rest).
Proof.
  induction items as [|s items IH]; [cbn; lia|].
  destruct items as [|t items].
  - cbn [map PyStr.join length]. rewrite json_string_app. cbn [String.length]. lia.
  - rewrite json_items_cons, json_string_app. cbn [String.length].
    rewrite length_app. cbn [String.length length] in *. lia.
Qed.

Lemma array_loop_strings (items : list string) :
  forall (s : string) (fuel f0 depth : nat) (values : list value) (rest : string),
  all_chars plain_char s -> Forall (all_chars plain_char) items ->
  length items < fuel ->
  Json.array_loop (Json.scan_once int_max_str_digits float_of (S f0) depth) fuel
    (PyStr.join ", " (map json_string (s :: items)) +:+ String "]" rest) values
  = Returns (VList (values ++ map VStr (s :: items)), rest).
Proof.
  induction items as [|t items IH]; intros s fuel f0 depth values rest Hs Hitems Hfuel;
    (destruct fuel as [|fuel]; [lia|]).
  - cbn [map PyStr.join Json.array_loop]. rewrite (scan_once_string _ _ _ _ Hs).
    reflexivity.
  - rewrite json_items_cons. cbn [Json.array_loop].
    rewrite (scan_once_string _ _ _ _ Hs).
    apply Forall_cons in Hitems as [Ht Hitems].
    destruct (json_items_start t items (String "]" rest)) as [body Hbody].
    cbn [Json.expecting_value try_except bind fst snd]. cbn [Json.skip_ws].
    change (Json.is_ws ",") with false. cbn iota.
    change (Ascii.eqb "," "]") with false. change (Ascii.eqb "," ",") with true. cbn iota.
    cbn [Json.skip_ws]. change (Json.is_ws " ") with true. cbn iota.
    rewrite Hbody. cbn [Json.skip_ws]. change (Json.is_ws PyStr.dquote) with false.
    cbn iota. rewrite <- Hbody.
    rewrite (IH t fuel f0 depth _ rest Ht Hitems) by (cbn [length] in Hfuel; lia).
    now rewrite <- app_assoc.
Qed.

Lemma loads_json_string (s : string) :
  all_chars plain_char s ->
  Json.loads recursion_limit int_max_str_digits float_of (json_string s)
  = Returns (VStr s).
Proof.
  intros Hs. unfold Json.loads, json_string, PyStr.str1. cbn [PyStr.starts_with_codes].
  change (239 =? PyStr.ord PyStr.dquote) with false. cbn [andb].
  unfold Json.decode. cbn [Json.skip_ws]. change (Json.is_ws PyStr.dquote) with false.
  cbn iota. cbn [Json.scan_once]. rewrite Ascii.eqb_refl.
  rewrite (scanstring_plain s EmptyString Hs). reflexivity.
Qed.

Lemma loads_array (depth : nat) (rest : string) :
  Json.loads (S depth) int_max_str_digits float_of (String "[" rest)
  = bind (Json.expecting_value
            (Json.JSONArray
               (Json.scan_once int_max_str_digits float_of (S (String.length rest)) depth)
               (S (String.length rest)) rest))
      (fun p => match Json.skip_ws p.2 with
                | EmptyString => Returns p.1
                | String _ _ => Raises JSONDecodeError
                end).
Proof. reflexivity. Qed.

Lemma loads_json_list (s : string) (items : list string) :
  0 < recursion_limit ->
  all_chars plain_char s -> Forall (all_chars plain_char) items ->
  Json.loads recursion_limit int_max_str_digits float_of (json_list (s :: items))
  = Returns (VList (map VStr (s :: items))).
Proof.
  intros Hdepth Hs Hitems. destruct recursion_limit as [|depth]; [lia|].
  unfold json_list. rewrite loads_array.
  pose proof (json_items_length (s :: items) "]") as Hlen.
  destruct (json_items_start s items "]") as [body Hbody].
  set (n := String.length _) in *.
  unfold Json.JSONArray. rewrite Hbody. cbn [Json.skip_ws].
  change (Json.is_ws PyStr.dquote) with false. cbn iota.
  change (Ascii.eqb PyStr.dquote "]") with false. cbn iota.
  rewrite <- Hbody.
  rewrite (array_loop_strings items s _ _ _ [] EmptyString Hs Hitems)
    by (cbn [length] in Hlen; lia).
  reflexivity.
Qed.

(** X12.  A JSON array of strings is returned as the list of the
    strings, when the scanner has a call left for the array, while the
    JSON text of one string alone decodes to a value that is neither an
    object nor an array and gives the empty list: a single name printed
    without its array is lost.  (Strings of plain characters: no double
    quote, backslash or control character.) *)
Theorem parse_json_output_strings (s : string) (items : list string) :
  all_chars plain_char s -> Forall (all_chars plain_char) items ->
  (0 < recursion_limit ->
   parse_json_output recursion_limit int_max_str_digits float_of (json_list (s :: items))
   = Returns (VStr s :: map VStr items))
  /\ parse_json_output recursion_limit int_max_str_digits float_of (json_string s)
     = Returns [].
Proof.
  intros Hs Hitems. split.
  - intros Hdepth.
    now rewrite (parse_json_output_decoded _ _ _ _ _
                   (loads_json_list s items Hdepth Hs Hitems)).
  - now rewrite (parse_json_output_decoded _ _ _ _ _ (loads_json_string s Hs)).
Qed.

(** X22.  [parse_json_output] raises nothing but the [RecursionError] and
    the [ValueError] of the decoder: on every text it returns a list or
    raises one of the two, the first only on a text with more opening
    brackets and braces than the scanner has calls left, the second only
    on a text with a run of digits over the limit on the digits of an
    integer. *)
Theorem parse_json_output_outcomes (raw_json : string) :
  ((exists records,
      parse_json_output recursion_limit int_max_str_digits float_of raw_json
      = Returns records)
   \/ parse_json_output recursion_limit int_max_str_digits float_of raw_json
      = Raises RecursionError
   \/ parse_json_output recursion_limit int_max_str_digits float_of raw_json
      = Raises ValueError)
  /\ (parse_json_output recursion_limit int_max_str_digits float_of raw_json
      = Raises RecursionError -> recursion_limit < open_count raw_json)
  /\ (parse_json_output recursion_limit int_max_str_digits float_of raw_json
      = Raises ValueError ->
      Json.exceeds_max_str_digits int_max_str_digits (max_digit_run raw_json) = true).
Proof.
  pose proof (decode_ok recursion_limit int_max_str_digits float_of raw_json) as Hok.
  destruct (Json.loads recursion_limit int_max_str_digits float_of raw_json)
    as [parsed|e|] eqn:H; [| |contradiction].
  - rewrite (parse_json_output_decoded _ _ _ _ _ H).
    split; [eauto|]. split; discriminate.
  - destruct e; try contradiction.
    + rewrite (parse_json_output_malformed _ _ _ _ H). split; [eauto|]. split; discriminate.
    + rewrite (parse_json_output_uncaught _ _ _ _ _ H) by discriminate.
      split; [auto|]. split; [intros _; exact Hok | discriminate].
    + rewrite (parse_json_output_uncaught _ _ _ _ _ H) by discriminate.
      split; [auto|]. split; [discriminate | intros _; exact Hok].
Qed.

End StringArrayFacts.

(** The texts ["Sales"] and ["Sales", "Support"]: the one name alone is
    lost, the two names are returned. *)
Lemma parse_json_output_strings_witness :
  parse_json_output 1000 4300 (fun text => text) (json_list ["Sales"; "Support"])
  = Returns [VStr "Sales"; VStr "Support"]
  /\ parse_json_output 1000 4300 (fun text => text) (json_string "Sales") = Returns [].
Proof.
  destruct (parse_json_output_strings 1000 4300 (fun text => text) "Sales" ["Support"])
    as [Hlist Hone].
  - cbn. unfold plain_char. repeat split; (discriminate || (vm_compute; lia)).
  - repeat constructor; (discriminate || (vm_compute; lia)).
  - split; [apply Hlist; lia | exact Hone].
Defined.

(** ** Pages of the contact lists *)

Section PageFacts.
Context {A : Type}.
Implicit Types (l : list A) (page : Z).

Lemma total_pages_bounds (n : nat) :
  (page_size * total_pages n - page_size < Z.of_nat n <= page_size * total_pages n)%Z.
Proof.
  unfold total_pages, page_size.
  pose proof (Z.div_mod (Z.of_nat n + 10 - 1) 10 ltac:(lia)) as Hd.
  pose proof (Z.mod_pos_bound (Z.of_nat n + 10 - 1) 10 ltac:(lia)) as Hm. lia.
Qed.

Lemma page_rows_chunk l page :
  (0 <= page)%Z ->
  page_rows l page = firstn 10 (skipn (10 * Z.to_nat page) l).
Proof.
  intros Hp. unfold page_rows, iloc_slice, slice_bound, page_size.
  destruct (Z.ltb_spec (page * 10) 0); [lia|].
  destruct (Z.ltb_spec ((page + 1) * 10) 0); [lia|].
  replace (Z.to_nat (page * 10)) with (10 * Z.to_nat page) by lia.
  replace (Z.to_nat ((page + 1) * 10)) with (10 * Z.to_nat page + 10) by lia.
  set (a := 10 * Z.to_nat page).
  destruct (Nat.le_gt_cases (length l) a) as [Hle|Hgt].
  - rewrite (Nat.min_r a) by assumption. rewrite !skipn_all2 by lia. now rewrite !firstn_nil.
  - rewrite (Nat.min_l a) by lia.
    destruct (Nat.le_gt_cases (a + 10) (length l)) as [Hfull|Hlast].
    + rewrite Nat.min_l by assumption. f_equal. lia.
    + rewrite Nat.min_r by lia.
      rewrite !firstn_all2; [reflexivity | | ]; rewrite length_skipn; lia.
Qed.

Lemma chunks_concat (k : nat) l :
  length l <= 10 * k ->
  concat (map (fun p => firstn 10 (skipn (10 * p) l)) (seq 0 k)) = l.
Proof.
  revert l. induction k as [|k IH]; intros l Hl.
  - destruct l; [reflexivity | simpl in Hl; lia].
  - rewrite <- cons_seq, <- fmap_S_seq. cbn [map concat].
    change (S <$> seq 0 k) with (map S (seq 0 k)). rewrite map_map.
    rewrite (map_ext _ (fun p => firstn 10 (skipn (10 * p) (skipn 10 l)))).
    + rewrite IH by (rewrite length_skipn; lia).
      change (10 * 0) with 0. cbn [skipn]. apply firstn_skipn.
    + intros p. rewrite skipn_skipn. do 2 f_equal. lia.
Qed.

Lemma page_rows_length l page :
  (0 <= page)%Z ->
  length (page_rows l page) = Nat.min 10 (length l - 10 * Z.to_nat page).
Proof.
  intros Hp. rewrite page_rows_chunk by assumption.
  now rewrite length_firstn, length_skipn.
Qed.

(** X13.  The pages of a table split its rows: the pages 0 to
    [total_pages - 1], one after the other, are all the rows in order; a
    page has at most ten rows, has a row exactly when its number is below
    [total_pages], and has ten rows when it is not the last one. *)
Theorem page_rows_cover l page :
  (0 <= page)%Z ->
  concat (map (fun p => page_rows l (Z.of_nat p))
            (seq 0 (Z.to_nat (total_pages (length l))))) = l
  /\ length (page_rows l page) <= 10
  /\ (page_rows l page <> [] <-> (page < total_pages (length l))%Z)
  /\ ((page < total_pages (length l) - 1)%Z -> length (page_rows l page) = 10).
Proof.
  intros Hp. pose proof (total_pages_bounds (length l)) as Hb. unfold page_size in Hb.
  split; [|split; [|split]].
  - rewrite (map_ext _ (fun p => firstn 10 (skipn (10 * p) l))).
    + apply chunks_concat. lia.
    + intros p. rewrite page_rows_chunk by lia. now rewrite Nat2Z.id.
  - rewrite page_rows_length by assumption. lia.
  - rewrite <- length_zero_iff_nil, page_rows_length by assumption. lia.
  - intros Hlt. rewrite page_rows_length by assumption. lia.
Qed.

(** X14.  A click moves the page by one and stops at both ends, so from
    the first page of a table with rows any clicks lead to a page of that
    table, which shows at least one row. *)
Theorem on_click_in_range l (clicks : list click) :
  l <> [] ->
  let page := fold_left (on_click (length l)) clicks 0%Z in
  (0 <= page < total_pages (length l))%Z
  /\ page_rows l page <> []
  /\ (forall c, on_click (length l) page c
                = match c with
                  | Previous => Z.max 0 (page - 1)
                  | Next => Z.min (total_pages (length l) - 1) (page + 1)
                  end).
Proof.
  intros Hne page.
  pose proof (total_pages_bounds (length l)) as Hb. unfold page_size in Hb.
  assert (Hlen : 0 < length l) by (destruct l; [contradiction | simpl; lia]).
  assert (Hstep : forall p c, (0 <= p < total_pages (length l))%Z ->
            (0 <= on_click (length l) p c < total_pages (length l))%Z
            /\ on_click (length l) p c
               = match c with
                 | Previous => Z.max 0 (p - 1)
                 | Next => Z.min (total_pages (length l) - 1) (p + 1)
                 end).
  { intros p c Hp. unfold on_click, previous_disabled, next_disabled.
    destruct c; [destruct (Z.leb_spec p 0) | destruct (Z.geb_spec p (total_pages (length l) - 1))];
      lia. }
  assert (Hrange : (0 <= page < total_pages (length l))%Z).
  { unfold page. clear page.
    assert (H0 : (0 <= 0 < total_pages (length l))%Z) by lia.
    assert (Hall : forall p, (0 <= p < total_pages (length l))%Z ->
              (0 <= fold_left (on_click (length l)) clicks p < total_pages (length l))%Z).
    { induction clicks as [|c clicks IH]; intros p Hp; [exact Hp|].
      cbn [fold_left]. apply IH, Hstep, Hp. }
    now apply Hall. }
  split; [exact Hrange|]. split.
  - rewrite <- length_zero_iff_nil, page_rows_length by lia. lia.
  - intros c. now apply Hstep.
Qed.

End PageFacts.

(** Twenty-three rows: three pages, the second one full. *)
Lemma page_rows_cover_witness :
  concat (map (fun p => page_rows (seq 0 23) (Z.of_nat p))
            (seq 0 (Z.to_nat (total_pages (length (seq 0 23)))))) = seq 0 23
  /\ length (page_rows (seq 0 23) 1) <= 10
  /\ (page_rows (seq 0 23) 1 <> [] <-> (1 < total_pages (length (seq 0 23)))%Z)
  /\ ((1 < total_pages (length (seq 0 23)) - 1)%Z -> length (page_rows (seq 0 23) 1) = 10).
Proof. apply (page_rows_cover (seq 0 23) 1). lia. Defined.

(** Twelve rows, and the clicks Next, Next, Previous. *)
Lemma on_click_in_range_witness :
  let l := seq 0 12 in
  let page := fold_left (on_click (length l)) [Next; Next; Previous] 0%Z in
  (0 <= page < total_pages (length l))%Z
  /\ page_rows l page <> []
  /\ (forall c, on_click (length l) page c
                = match c with
                  | Previous => Z.max 0 (page - 1)
                  | Next => Z.min (total_pages (length l) - 1) (page + 1)
                  end).
Proof. apply (on_click_in_range (seq 0 12) [Next; Next; Previous]). discriminate. Defined.

(** ** Credentials and session state *)

Section SessionFacts.

(** X15.  The credentials in effect are the typed pair or, when the box
    is ticked, the cached pair, never a mix of the two; a complete typed
    pair always wins; and the pair is complete -- the buttons that need it
    are enabled -- exactly when the typed pair is complete or the box is
    ticked and the cached pair is complete. *)
Theorem get_effective_credentials_complete
    (cached_user cached_pass username password : string) (use_cached : bool) :
  let eff := get_effective_credentials cached_user cached_pass username password use_cached in
  (eff = (username, password) \/ (use_cached = true /\ eff = (cached_user, cached_pass)))
  /\ (nonempty username && nonempty password = true -> eff = (username, password))
  /\ nonempty eff.1 && nonempty eff.2
     = (nonempty username && nonempty password)
       || (use_cached && nonempty cached_user && nonempty cached_pass).
Proof.
  unfold get_effective_credentials.
  destruct (nonempty username && nonempty password) eqn:Ht.
  - cbn. rewrite Ht. auto.
  - destruct use_cached; cbn; [|rewrite Ht; auto].
    destruct (nonempty cached_user && nonempty cached_pass) eqn:Hc; cbn.
    + rewrite Hc. split; [auto|]. split; [discriminate | reflexivity].
    + rewrite Ht. split; [auto|]. split; [discriminate | reflexivity].
Qed.

(** A typed user name without a password, and a cached pair. *)
Lemma get_effective_credentials_complete_witness :
  let eff := get_effective_credentials "ann" "pw" "bob" EmptyString true in
  (eff = ("bob", EmptyString) \/ (true = true /\ eff = ("ann", "pw")))
  /\ (nonempty "bob" && nonempty EmptyString = true -> eff = ("bob", EmptyString))
  /\ nonempty eff.1 && nonempty eff.2
     = (nonempty "bob" && nonempty EmptyString) || (true && nonempty "ann" && nonempty "pw").
Proof. exact (get_effective_credentials_complete "ann" "pw" "bob" EmptyString true). Defined.

(** X16.  The cached user and the cached password are set and cleared
    together: if one is empty exactly when the other is, this still holds
    after the sidebar ran, whose result is the pair as it was, the typed
    pair or the empty pair; and a complete pair remembered in one run is
    the pair in effect in a run with nothing typed and the box ticked. *)
Theorem sidebar_cache_paired (cached : string * string) (username password : string)
    (remember clear_clicked : bool) :
  nonempty cached.1 = nonempty cached.2 ->
  let cached' := sidebar_cache cached username password remember clear_clicked in
  nonempty cached'.1 = nonempty cached'.2
  /\ (cached' = cached \/ cached' = (username, password)
      \/ cached' = (EmptyString, EmptyString))
  /\ (remember = true -> clear_clicked = false ->
      nonempty username && nonempty password = true ->
      get_effective_credentials cached'.1 cached'.2 EmptyString EmptyString true
      = (username, password)).
Proof.
  intros Hpair. destruct cached as [cu cp]. cbn [fst snd] in Hpair.
  unfold sidebar_cache. cbv zeta. cbn [fst snd].
  destruct remember, clear_clicked, (nonempty username) eqn:Hu, (nonempty password) eqn:Hp;
    cbn [andb fst snd]; rewrite ?Hu; cbn [andb fst snd];
    try (destruct (nonempty cu) eqn:Hc; cbn [andb fst snd]);
    (split; [first [reflexivity | congruence] |]);
    (split; [auto |]); intros Hr Hcl Ht; try discriminate.
  all: unfold get_effective_credentials; cbn [nonempty PyStr.is_empty negb andb];
    fold (nonempty username); fold (nonempty password); now rewrite Hu, Hp.
Qed.

(** Nothing cached yet, and a pair typed with the box ticked. *)
Lemma sidebar_cache_paired_witness :
  let cached' := sidebar_cache (EmptyString, EmptyString) "ann" "pw" true false in
  nonempty cached'.1 = nonempty cached'.2
  /\ (cached' = (EmptyString, EmptyString) \/ cached' = ("ann", "pw")
      \/ cached' = (EmptyString, EmptyString))
  /\ (true = true -> false = false -> nonempty "ann" && nonempty "pw" = true ->
      get_effective_credentials cached'.1 cached'.2 EmptyString EmptyString true
      = ("ann", "pw")).
Proof.
  apply (sidebar_cache_paired (EmptyString, EmptyString) "ann" "pw" true false). reflexivity.
Defined.

Lemma set_defaults_get (defaults session_state : pydict session_value) (k : string) :
  Dict.get (fold_left set_default defaults session_state) k
  = match Dict.get session_state k with
    | Some v => Some v
    | None => Dict.get defaults k
    end.
Proof.
  revert session_state. induction defaults as [|[k0 v0] defaults IH]; intros s.
  - cbn. now destruct (Dict.get s k).
  - cbn [fold_left]. rewrite IH. unfold set_default. cbn [fst snd Dict.get].
    destruct (Py.str_in k0 (Dict.keys s)) eqn:Hin; cbn [negb].
    + destruct (Dict.get s k) eqn:Hk; [reflexivity|].
      destruct (String.eqb_spec k0 k) as [->|]; [|reflexivity].
      apply str_in_spec in Hin. apply dict_get_None in Hk. contradiction.
    + rewrite dict_get_set. destruct (String.eqb_spec k0 k) as [->|]; [|reflexivity].
      assert (Hk : Dict.get s k = None).
      { apply dict_get_None. intros H. apply str_in_spec in H. congruence. }
      now rewrite Hk.
Qed.

Lemma set_defaults_present (defaults session_state : pydict session_value) :
  (forall kv, kv ∈ defaults -> kv.1 ∈ Dict.keys session_state) ->
  fold_left set_default defaults session_state = session_state.
Proof.
  induction defaults as [|kv defaults IH]; intros Hall; [reflexivity|].
  cbn [fold_left]. unfold set_default at 2.
  assert (Hin : Py.str_in kv.1 (Dict.keys session_state) = true).
  { apply str_in_spec, Hall. left. }
  rewrite Hin. cbn [negb]. apply IH. intros kv' Hkv'. apply Hall. now right.
Qed.

(** X17.  The initialisation of the session state keeps every value that
    is there and gives every other key of the defaults its default; run a
    second time it changes nothing. *)
Theorem init_session_state_defaults (session_state : pydict session_value) (k : string) :
  Dict.get (init_session_state session_state) k
  = match Dict.get session_state k with
    | Some v => Some v
    | None => Dict.get get_default_state k
    end
  /\ init_session_state (init_session_state session_state)
     = init_session_state session_state.
Proof.
  split; [apply set_defaults_get|].
  apply set_defaults_present. intros kv Hkv.
  destruct (decide (kv.1 ∈ Dict.keys (init_session_state session_state))) as [|Hnot];
    [assumption|].
  apply dict_get_None in Hnot. unfold init_session_state in Hnot.
  rewrite set_defaults_get in Hnot.
  destruct (Dict.get session_state kv.1); [discriminate|].
  apply dict_get_None in Hnot. exfalso. apply Hnot.
  unfold Dict.keys. apply list_elem_of_fmap. eauto.
Qed.

End SessionFacts.

(** ** The installer, from start to report *)

Section InstallerFacts.
Variables (_INSTALL_DIR sep : string).

Local Abbreviation STDOUT' := (_INSTALL_STDOUT _INSTALL_DIR sep).
Local Abbreviation STDERR' := (_INSTALL_STDERR _INSTALL_DIR sep).
Local Abbreviation LOCK' := (_INSTALL_LOCK _INSTALL_DIR sep).
Local Abbreviation SCRIPT' := (script_file _INSTALL_DIR sep).
Local Abbreviation report :=
  (fun w : world => installer_message (get_install_status _INSTALL_DIR sep w).1).
Local Abbreviation shown :=
  (fun w : world => status_button_shown (get_install_status _INSTALL_DIR sep w).1).

Lemma report_finished (w : world) :
  report (job_finally _INSTALL_DIR sep w)
  = if nonempty (match files w !! STDERR' with
                 | Some text => PyStr.strip text
                 | None => EmptyString
                 end)
    then "Install failed. Check Debug Console." else "Install complete.".
Proof.
  destruct (install_paths_distinct _INSTALL_DIR sep) as (Hoe & Hol & Hel & _).
  rewrite status_fields. unfold installer_message. cbn [fst running stderr job_finally files].
  rewrite lookup_delete_eq. rewrite lookup_delete_ne by auto. reflexivity.
Qed.

(** X18.  What the status button reports over the life of an install: no
    button for a slot without files; from the start on the button is
    there, and it reports a running install for as long as the job has not
    removed its lock; after a job that wrote output the report is
    complete; after a job that failed it is failed exactly when the
    message it left is not blank. *)
Theorem installer_message_lifecycle (command : string) (w : world) :
  let w1 := (start_install_detached _INSTALL_DIR sep command w).2 in
  (files w !! LOCK' = None -> files w !! STDOUT' = None -> files w !! STDERR' = None ->
   shown w = false)
  /\ (forall w2, rtc (job_step _INSTALL_DIR sep) w1 w2 ->
        shown w2 = true /\ report w2 = "Install running..."
        /\ shown (job_finally _INSTALL_DIR sep w2) = true)
  /\ (forall text,
        report (job_finally _INSTALL_DIR sep
                  {| files := <[STDOUT' := text]> (files w1); log := log w1 |})
        = "Install complete.")
  /\ (forall message,
        report (job_finally _INSTALL_DIR sep
                  {| files := <[STDERR' := message]> (files w1); log := log w1 |})
        = if nonempty (PyStr.strip message)
          then "Install failed. Check Debug Console." else "Install complete.").
Proof.
  destruct (install_paths_distinct _INSTALL_DIR sep) as (Hoe & Hol & Hel & Hso & Hse & Hsl).
  intros w1.
  assert (Hout : files w1 !! STDOUT' = Some EmptyString).
  { unfold w1. rewrite start_files.
    rewrite lookup_insert_ne, lookup_insert_ne, lookup_insert_ne, lookup_insert_eq; auto. }
  assert (Herr : files w1 !! STDERR' = Some EmptyString).
  { unfold w1. rewrite start_files.
    rewrite lookup_insert_ne, lookup_insert_ne, lookup_insert_eq; auto. }
  assert (Hlock : files w1 !! LOCK' = Some "running").
  { unfold w1. rewrite start_files. rewrite lookup_insert_ne, lookup_insert_eq; auto. }
  split; [|split; [|split]].
  - intros Hl Ho He. rewrite status_fields. unfold status_button_shown.
    cbn [fst running done]. rewrite Hl, Ho, He. reflexivity.
  - intros w2 Hsteps.
    assert (Hl2 : is_Some (files w2 !! LOCK')).
    { apply (job_steps_keep_lock _ _ _ _ Hsteps). rewrite Hlock. eauto. }
    assert (Ho2 : is_Some (files w2 !! STDOUT')).
    { apply (job_steps_keep_stdout _ _ _ _ Hsteps). rewrite Hout. eauto. }
    split; [|split].
    + rewrite status_fields. unfold status_button_shown. cbn [fst running].
      now rewrite (bool_decide_eq_true_2 _ Hl2).
    + rewrite status_fields. unfold installer_message. cbn [fst running].
      now rewrite (bool_decide_eq_true_2 _ Hl2).
    + rewrite status_fields. unfold status_button_shown.
      cbn [fst running done job_finally files].
      rewrite lookup_delete_eq. rewrite lookup_delete_ne by auto.
      now rewrite (bool_decide_eq_true_2 _ Ho2).
  - intros text. rewrite report_finished. cbn [files].
    rewrite lookup_insert_ne by auto. now rewrite Herr.
  - intros message. rewrite report_finished. cbn [files].
    now rewrite lookup_insert_eq.
Qed.

(** X19.  [start_install_detached] touches its four files only: every
    other file of the machine is afterwards as it was. *)
Theorem start_install_detached_frame (command : string) (w : world) (path : string) :
  path <> STDOUT' -> path <> STDERR' -> path <> LOCK' -> path <> SCRIPT' ->
  files (start_install_detached _INSTALL_DIR sep command w).2 !! path = files w !! path.
Proof.
  intros Ho He Hl Hs. rewrite start_files.
  now rewrite !lookup_insert_ne by congruence.
Qed.

End InstallerFacts.

(** A slot without files, a job that prints the date. *)
Lemma installer_message_lifecycle_witness :
  let w1 := (start_install_detached slot_dir "/" "Get-Date" empty_slot).2 in
  status_button_shown (get_install_status slot_dir "/" empty_slot).1 = false
  /\ installer_message (get_install_status slot_dir "/" w1).1 = "Install running...".
Proof.
  pose proof (installer_message_lifecycle slot_dir "/" "Get-Date" empty_slot) as (H0 & H1 & _).
  split.
  - apply H0; reflexivity.
  - apply (H1 _ (rtc_refl _ _)).
Defined.

(** A file of the user beside the slot. *)
Lemma start_install_detached_frame_witness :
  files (start_install_detached slot_dir "/" "Get-Date"
           {| files := {[ "/tmp/notes.txt" := "keep" ]}; log := [] |}).2 !! "/tmp/notes.txt"
  = Some "keep".
Proof.
  rewrite (start_install_detached_frame slot_dir "/" "Get-Date" _ "/tmp/notes.txt");
    [reflexivity | discriminate | discriminate | discriminate | discriminate].
Defined.

(** ** Stripped output *)

Section StripFacts.
Implicit Types (table : list (list nat)) (s t u v : string).

Lemma append_empty_r s : s +:+ EmptyString = s.
Proof. induction s as [|c s IH]; [reflexivity|]. now rewrite append_String, IH. Qed.

Lemma str_rev_onto_app (acc s : string) :
  PyStr.str_rev_onto acc s = PyStr.str_rev s +:+ acc.
Proof.
  unfold PyStr.str_rev. revert acc. induction s as [|c s IH]; intros acc; [reflexivity|].
  cbn [PyStr.str_rev_onto]. rewrite IH, (IH (String c EmptyString)).
  now rewrite app_assoc_str.
Qed.

Lemma str_rev_String (c : ascii) s :
  PyStr.str_rev (String c s) = PyStr.str_rev s +:+ String c EmptyString.
Proof. unfold PyStr.str_rev at 1. cbn [PyStr.str_rev_onto]. apply str_rev_onto_app. Qed.

Lemma str_rev_app s t : PyStr.str_rev (s +:+ t) = PyStr.str_rev t +:+ PyStr.str_rev s.
Proof.
  induction s as [|c s IH].
  - change (EmptyString +:+ t) with t. now rewrite append_empty_r.
  - now rewrite append_String, !str_rev_String, IH, app_assoc_str.
Qed.

Lemma str_rev_involutive s : PyStr.str_rev (PyStr.str_rev s) = s.
Proof.
  induction s as [|c s IH]; [reflexivity|].
  now rewrite str_rev_String, str_rev_app, IH.
Qed.

(** What [strip_go] returns is the end of its text, and has no white
    space in front. *)
Lemma strip_go_suffix table (skip : nat) s :
  exists a, s = a +:+ PyStr.strip_go table skip s.
Proof.
  revert skip. induction s as [|c s IH]; intros skip; [now exists EmptyString|].
  cbn [PyStr.strip_go]. destruct skip as [|k].
  - destruct (PyStr.space_prefix table (String c s)) as [n|]; [|now exists EmptyString].
    destruct (IH (n - 1)) as [a Ha]. exists (String c a). now rewrite append_String, <- Ha.
  - destruct (IH k) as [a Ha]. exists (String c a). now rewrite append_String, <- Ha.
Qed.

Lemma strip_go_fixed table (skip : nat) s :
  PyStr.strip_go table 0 (PyStr.strip_go table skip s) = PyStr.strip_go table skip s.
Proof.
  revert skip. induction s as [|c s IH]; intros skip; [reflexivity|].
  cbn [PyStr.strip_go]. destruct skip as [|k]; [|apply IH].
  destruct (PyStr.space_prefix table (String c s)) as [n|] eqn:E; [apply IH|].
  cbn [PyStr.strip_go]. now rewrite E.
Qed.

Lemma starts_with_codes_app (codes : list nat) u v :
  PyStr.starts_with_codes codes u = true -> PyStr.starts_with_codes codes (u +:+ v) = true.
Proof.
  revert u. induction codes as [|n codes IH]; intros u; [reflexivity|].
  destruct u as [|c u]; [discriminate|]. rewrite append_String. cbn [PyStr.starts_with_codes].
  rewrite !andb_true_iff. intros [Hn Hu]. auto.
Qed.

Lemma space_prefix_app table u v :
  PyStr.space_prefix table (u +:+ v) = None -> PyStr.space_prefix table u = None.
Proof.
  unfold PyStr.space_prefix. induction table as [|codes table IH]; [reflexivity|].
  cbn [List.find].
  destruct (PyStr.starts_with_codes codes u) eqn:E.
  - now rewrite (starts_with_codes_app _ _ v E).
  - destruct (PyStr.starts_with_codes codes (u +:+ v)); [discriminate | exact IH].
Qed.

Lemma strip_go_fixed_prefix table u v :
  PyStr.strip_go table 0 (u +:+ v) = u +:+ v -> PyStr.strip_go table 0 u = u.
Proof.
  destruct u as [|c u]; [reflexivity|]. rewrite append_String. cbn [PyStr.strip_go].
  rewrite <- append_String.
  destruct (PyStr.space_prefix table (String c u +:+ v)) as [n|] eqn:E.
  - intros H. destruct (strip_go_suffix table (n - 1) (u +:+ v)) as [a Ha].
    rewrite H in Ha. apply (f_equal String.length) in Ha.
    rewrite !length_app in Ha. cbn [String.length] in Ha. lia.
  - intros _. now rewrite (space_prefix_app _ _ _ E).
Qed.

Lemma rstrip_prefix s : exists a, s = PyStr.rstrip s +:+ a.
Proof.
  unfold PyStr.rstrip.
  destruct (strip_go_suffix (map (@rev nat) PyStr.whitespace) 0 (PyStr.str_rev s)) as [a Ha].
  exists (PyStr.str_rev a). rewrite <- str_rev_app, <- Ha. now rewrite str_rev_involutive.
Qed.

Lemma rstrip_fixed s : PyStr.rstrip (PyStr.rstrip s) = PyStr.rstrip s.
Proof. unfold PyStr.rstrip. now rewrite str_rev_involutive, strip_go_fixed. Qed.

Lemma strip_ends s :
  PyStr.lstrip (PyStr.strip s) = PyStr.strip s /\ PyStr.rstrip (PyStr.strip s) = PyStr.strip s.
Proof.
  unfold PyStr.strip. split; [|apply rstrip_fixed].
  destruct (rstrip_prefix (PyStr.lstrip s)) as [a Ha].
  apply (strip_go_fixed_prefix _ _ a). rewrite <- Ha. apply strip_go_fixed.
Qed.

Lemma strip_fixed s : PyStr.strip (PyStr.strip s) = PyStr.strip s.
Proof.
  destruct (strip_ends s) as [Hl Hr]. unfold PyStr.strip at 1. now rewrite Hl.
Qed.

Lemma space_prefix_ascii (c : ascii) s :
  ascii_space c -> PyStr.space_prefix PyStr.whitespace (String c s) = Some 1.
Proof.
  unfold ascii_space. cbn [In]. intros H.
  unfold PyStr.space_prefix, PyStr.whitespace. cbn [List.find PyStr.starts_with_codes].
  repeat (destruct H as [H|H]; [now rewrite <- H|]). destruct H.
Qed.

Lemma strip_blank s : all_chars ascii_space s -> PyStr.strip s = EmptyString.
Proof.
  intros H. unfold PyStr.strip.
  assert (Hl : PyStr.lstrip s = EmptyString); [|now rewrite Hl].
  unfold PyStr.lstrip. induction s as [|c s IH]; [reflexivity|].
  destruct H as [Hc Hs]. cbn [PyStr.strip_go]. rewrite (space_prefix_ascii _ _ Hc).
  apply IH, Hs.
Qed.

Variable subprocess_run : list string -> string * string.

(** X20.  The two texts [run_powershell_command] returns have no white
    space at either end, so stripping them again changes nothing; and
    when the process wrote only blanks and line ends to its error stream,
    the error text returned is empty, which the pages read as success. *)
Theorem run_powershell_command_stripped (username password : option string)
    (command : string) :
  let completed := subprocess_run (ps_base_args (ps_script username password command)) in
  let result := run_powershell_command subprocess_run username password command in
  PyStr.strip result.1 = result.1 /\ PyStr.strip result.2 = result.2
  /\ PyStr.lstrip result.1 = result.1 /\ PyStr.rstrip result.1 = result.1
  /\ (all_chars ascii_space completed.2 -> result.2 = EmptyString).
Proof.
  unfold run_powershell_command. cbn [fst snd].
  split; [apply strip_fixed|]. split; [apply strip_fixed|].
  split; [apply strip_ends|]. split; [apply strip_ends|]. apply strip_blank.
Qed.

End StripFacts.

(** A process that prints a result between line ends, and a line end on
    its error stream. *)
Lemma run_powershell_command_stripped_witness :
  run_powershell_command (fun _ => (PyStr.nl +:+ "[]" +:+ PyStr.nl, PyStr.nl))
    (Some "ann") (Some "pw") "Get-Five9List"
  = ("[]", EmptyString).
Proof.
  pose proof (run_powershell_command_stripped
                (fun _ => (PyStr.nl +:+ "[]" +:+ PyStr.nl, PyStr.nl))
                (Some "ann") (Some "pw") "Get-Five9List") as (_ & _ & _ & _ & H).
  cbn [fst snd] in H.
  rewrite (surjective_pairing (run_powershell_command _ _ _ _)).
  rewrite H.
  - reflexivity.
  - split; [|exact I]. unfold ascii_space. vm_compute. tauto.
Defined.
